(** * JPM: stock valuation formulas and the simple trade ledger

    A shallow embedding of [stock.py] and [trade.py].

    Number model.  Python's [int] and [float] values are embedded in the
    real numbers [R]: integer arithmetic is exact and the rounding of
    binary floating point is abstracted away, so [/] is real division,
    [math.log] is [ln] on the positive reals (and raises [ValueError]
    elsewhere) and [math.exp] is [exp].  Quantities and the trade counter
    are Python integers and are kept in [Z]; they are injected with [IZR]
    where Python promotes them in a mixed operation.

    Time model.  A [datetime] has microsecond resolution and is totally
    ordered, so a timestamp is the number of microseconds since an epoch,
    in [Z]; a [timedelta] is a number of microseconds, in [Z].

    Effect model.  A function that may raise returns a [result]; a
    method of [SimpleTradeList] mutates [self] and may raise, and is
    embedded in a state-and-exception monad in which the state written
    before an exception is raised survives the exception, as the
    attributes of [self] do in Python. *)

From Stdlib Require Import Reals Lra Lia ZArith.
From stdpp Require Import gmap strings list fin_maps.

(** ** Python primitives *)

Module py.

(** Exceptions raised by the built-in operations the program uses. *)
Inductive error := ZeroDivisionError | ValueError | IndexError.

Inductive result (E A : Type) : Type :=
| Ok (a : A)
| Raise (e : E).
Arguments Ok {E A} a.
Arguments Raise {E A} e.

(** [a / b] *)
Definition truediv (a b : R) : result error R :=
  if Req_dec_T b 0 then Raise ZeroDivisionError else Ok (a / b)%R.

(** [math.log(x)]: a domain error unless [0 < x]. *)
Definition math_log (x : R) : result error R :=
  if Rlt_dec 0 x then Ok (ln x) else Raise ValueError.

(** [math.exp(x)] *)
Definition math_exp (x : R) : R := exp x.

(** [l[-1]] *)
Definition getitem_last {A} (l : list A) : result error A :=
  match last l with
  | Some a => Ok a
  | None => Raise IndexError
  end.

(** [l[i]] for an index [0 <= i]. *)
Definition getitem {A} (l : list A) (i : nat) : result error A :=
  match l !! i with
  | Some a => Ok a
  | None => Raise IndexError
  end.

(** [range(n - 1, -1, -1)] *)
Definition range_down (n : nat) : list nat := rev (seq 0 n).

End py.

(** ** stock.py *)

Module stock.
Import py.

Local Open Scope R_scope.

Inductive StockType := COMMON | PREFERRED.

(** The two concrete subclasses of [StockABC].  [CommonStock.__init__]
    passes [fixed_dividend=None] to the base class, so the common variant
    carries no fixed dividend. *)
Inductive StockABC :=
| CommonStock (symbol : string) (last_dividend par_value : R)
| PreferredStock (symbol : string)
                 (last_dividend fixed_dividend par_value : R).

Definition symbol (s : StockABC) : string :=
  match s with
  | CommonStock sym _ _ => sym
  | PreferredStock sym _ _ _ => sym
  end.

Definition last_dividend (s : StockABC) : R :=
  match s with
  | CommonStock _ ld _ => ld
  | PreferredStock _ ld _ _ => ld
  end.

Definition fixed_dividend (s : StockABC) : option R :=
  match s with
  | CommonStock _ _ _ => None
  | PreferredStock _ _ fd _ => Some fd
  end.

Definition par_value (s : StockABC) : R :=
  match s with
  | CommonStock _ _ pv => pv
  | PreferredStock _ _ _ pv => pv
  end.

(** [CommonStock.dividend_yield] and [PreferredStock.dividend_yield];
    the match is the method dispatch. *)
Definition dividend_yield (s : StockABC) (price : R) : result error R :=
  match s with
  | CommonStock _ ld _ =>
      if Req_dec_T price 0 then Ok 0 else truediv ld price
  | PreferredStock _ _ fd pv =>
      if Req_dec_T price 0 then Ok 0
      else truediv (fd * pv) (price * 100)
  end.

(** [StockABC.pe_ratio], shared by both variants. *)
Definition pe_ratio (s : StockABC) (price : R) : result error R :=
  match dividend_yield s price with
  | Raise e => Raise e
  | Ok dividend_yield =>
      if Req_dec_T dividend_yield 0 then Ok 0
      else truediv price dividend_yield
  end.

(** The yield formulas in the words of the specification: the dividend
    of an instrument is its last dividend (common) or the fixed
    percentage of its par value (preferred), and the yield is that
    dividend over the price. *)
Definition spec_dividend (s : StockABC) : R :=
  match s with
  | CommonStock _ ld _ => ld
  | PreferredStock _ _ fd pv => fd / 100 * pv
  end.

Definition spec_dividend_yield (s : StockABC) (price : R) : R :=
  spec_dividend s / price.

(** Instruments of the test suite. *)
Definition test_common : StockABC := CommonStock "TEST" 120 0.
Definition test_preferred : StockABC := PreferredStock "TEST" 8 2 100.
Definition test_zero_dividend : StockABC := CommonStock "TEST3" 0 100.

(** *** Construction: [StockType] and [StockFactory] *)

(** The first argument of [StockFactory]: a member of [StockType] or a
    string. *)
Inductive stock_tag :=
| TagMember (m : StockType)
| TagStr (label : string).

(** What the construction of an instrument can raise: the [ValueError]
    of the enumeration, [... is not a valid StockType], and the
    [TypeError] of a constructor called with a keyword it does not have
    or without an argument it requires. *)
Inductive construction_error :=
| NotAValidStockType (label : string)
| UnexpectedFixedDividend
| MissingFixedDividend.

(** The values of the members: [COMMON = 'Common'],
    [PREFERRED = 'Preferred']. *)
Definition StockType_value (m : StockType) : string :=
  match m with
  | COMMON => "Common"
  | PREFERRED => "Preferred"
  end.

(** [StockType(stock_type)]: a member is returned as it is, a string is
    looked up among the values of the members. *)
Definition StockType_call (stock_type : stock_tag)
    : result construction_error StockType :=
  match stock_type with
  | TagMember m => Ok m
  | TagStr label =>
      if String.eqb label (StockType_value COMMON) then Ok COMMON
      else if String.eqb label (StockType_value PREFERRED) then Ok PREFERRED
      else Raise (NotAValidStockType label)
  end.

(** [StockFactory(stock_type, symbol, last_dividend=..., par_value=...)],
    with or without the keyword [fixed_dividend]: the class is looked up
    first and then called with the arguments.  [CommonStock.__init__]
    has no parameter [fixed_dividend]; [PreferredStock.__init__]
    requires it. *)
Definition StockFactory (stock_type : stock_tag) (symbol : string)
    (last_dividend : R) (fixed_dividend : option R) (par_value : R)
    : result construction_error StockABC :=
  match StockType_call stock_type with
  | Raise e => Raise e
  | Ok COMMON =>
      match fixed_dividend with
      | None => Ok (CommonStock symbol last_dividend par_value)
      | Some _ => Raise UnexpectedFixedDividend
      end
  | Ok PREFERRED =>
      match fixed_dividend with
      | Some fd => Ok (PreferredStock symbol last_dividend fd par_value)
      | None => Raise MissingFixedDividend
      end
  end.

(** The class of an instrument, as a member of [StockType]. *)
Definition class_of (s : StockABC) : StockType :=
  match s with
  | CommonStock _ _ _ => COMMON
  | PreferredStock _ _ _ _ => PREFERRED
  end.

End stock.

(** ** trade.py *)

Module trade.
Import py stock.

Local Open Scope Z_scope.

Inductive TradeIndicator := BUY | SELL.

Record Trade := mkTrade {
  stock : StockABC;
  timestamp : Z;
  quantity : Z;
  indicator : TradeIndicator;
  traded_price : R
}.

(** What a method of the ledger can raise: an exception of a built-in
    operation, or the failed ordering assertion of [record_trade], whose
    message is formatted from the stock symbol and the trade. *)
Inductive exception :=
| Builtin (e : error)
| AssertionError (stock_symbol : string) (trade : Trade).

Record SimpleTradeList := mkSimpleTradeList {
  records : gmap string (list Trade);
  traded_price_count : Z;
  total_traded_price : R;
  total_traded_price_log : R;
  last_timestamp : option Z
}.

(** [SimpleTradeList.__init__] *)
Definition init : SimpleTradeList :=
  {| records := ∅;
     traded_price_count := 0;
     total_traded_price := 0%R;
     total_traded_price_log := 0%R;
     last_timestamp := None |}.

Definition set_records (r : gmap string (list Trade))
    (self : SimpleTradeList) : SimpleTradeList :=
  mkSimpleTradeList r (traded_price_count self) (total_traded_price self)
    (total_traded_price_log self) (last_timestamp self).

Definition set_traded_price_count (n : Z)
    (self : SimpleTradeList) : SimpleTradeList :=
  mkSimpleTradeList (records self) n (total_traded_price self)
    (total_traded_price_log self) (last_timestamp self).

Definition set_total_traded_price (x : R)
    (self : SimpleTradeList) : SimpleTradeList :=
  mkSimpleTradeList (records self) (traded_price_count self) x
    (total_traded_price_log self) (last_timestamp self).

Definition set_total_traded_price_log (x : R)
    (self : SimpleTradeList) : SimpleTradeList :=
  mkSimpleTradeList (records self) (traded_price_count self)
    (total_traded_price self) x (last_timestamp self).

Definition set_last_timestamp (t : option Z)
    (self : SimpleTradeList) : SimpleTradeList :=
  mkSimpleTradeList (records self) (traded_price_count self)
    (total_traded_price self) (total_traded_price_log self) t.

(** *** The method monad: state that survives exceptions *)

Definition M (A : Type) : Type :=
  SimpleTradeList -> SimpleTradeList * result exception A.

Definition ret {A} (a : A) : M A := fun self => (self, Ok a).

Definition bind {A B} (c : M A) (k : A -> M B) : M B :=
  fun self =>
    match c self with
    | (self', Ok a) => k a self'
    | (self', Raise e) => (self', Raise e)
    end.

Definition raise {A} (e : exception) : M A := fun self => (self, Raise e).

Definition gets {A} (f : SimpleTradeList -> A) : M A :=
  fun self => (self, Ok (f self)).

Definition modify (f : SimpleTradeList -> SimpleTradeList) : M unit :=
  fun self => (f self, Ok tt).

(** A built-in operation used inside a method. *)
Definition lift {A} (r : result error A) : M A :=
  match r with
  | Ok a => ret a
  | Raise e => raise (Builtin e)
  end.

Declare Scope M_scope.
Notation "'let*' x ':=' c 'in' k" := (bind c (fun x => k))
  (at level 10, x name, c at level 100, k at level 200,
   only parsing) : M_scope.
Notation "c ';;;' k" := (bind c (fun _ => k))
  (at level 100, k at level 200, right associativity,
   only parsing) : M_scope.
Delimit Scope M_scope with M.
Local Open Scope M_scope.

(** [assert cond, msg] *)
Definition assert_ (cond : bool) (e : exception) : M unit :=
  if cond then ret tt else raise e.

(** [self.records.setdefault(key, value)]: the list stored under [key],
    after storing [value] there when the key is absent. *)
Definition records_setdefault (key : string) (value : list Trade)
    : M (list Trade) :=
  fun self =>
    match records self !! key with
    | Some trade_list => (self, Ok trade_list)
    | None =>
        (set_records (<[key := value]> (records self)) self, Ok value)
    end.

(** [trade_list.append(trade)], where [trade_list] is the list object
    stored under [key]: the append is seen through the dict. *)
Definition trade_list_append (key : string) (trade : Trade) : M unit :=
  modify (fun self =>
    set_records (alter (fun l => l ++ [trade]) key (records self)) self).

(** [SimpleTradeList.record_trade] *)
Definition record_trade (trade : Trade) : M unit :=
  let stock_symbol := symbol (stock trade) in
  let* trade_list := records_setdefault stock_symbol [] in
  assert_
    (match last trade_list with
     | None => true                                  (* len(trade_list) == 0 *)
     | Some t => timestamp t <=? timestamp trade     (* trade_list[-1] *)
     end)
    (AssertionError stock_symbol trade) ;;;
  trade_list_append stock_symbol trade ;;;
  modify (fun self =>
    set_traded_price_count (traded_price_count self + 1) self) ;;;
  modify (fun self =>
    set_total_traded_price
      (total_traded_price self + traded_price trade)%R self) ;;;
  (let* l := lift (math_log (traded_price trade)) in
   modify (fun self =>
     set_total_traded_price_log (total_traded_price_log self + l)%R self)) ;;;
  let* last := gets last_timestamp in
  match last with
  | None => modify (set_last_timestamp (Some (timestamp trade)))
  | Some t =>
      modify (set_last_timestamp (Some (Z.max t (timestamp trade))))
  end.

(** Python truth value of the result of [dict.get]: [None] and the empty
    list are false. *)
Definition truthy (trades : option (list Trade)) : bool :=
  match trades with
  | None | Some [] => false
  | Some (_ :: _) => true
  end.

(** [SimpleTradeList.get_last_timestamp] *)
Definition get_last_timestamp (stock_symbol : option string)
    : M (option Z) :=
  match stock_symbol with
  | None => gets last_timestamp
  | Some stock_symbol =>
      let* trades := gets (fun self => records self !! stock_symbol) in
      if negb (truthy trades) then ret None
      else
        let* t := lift (getitem_last (default [] trades)) in
        ret (Some (timestamp t))
  end.

(** [SimpleTradeList.geometric_mean] *)
Definition geometric_mean : M R :=
  let* count := gets traded_price_count in
  if count <? 1 then ret 0%R
  else
    let* log := gets total_traded_price_log in
    let* q := lift (truediv log (IZR count)) in
    ret (math_exp q).

(** [timedelta(minutes=15)], in microseconds. *)
Definition minutes (n : Z) : Z := n * 60 * 1000000.
Definition default_trade_timedelta : Z := minutes 15.

(** The [for] loop of [volume_weighted_stock_price] over the indices
    still to visit, with the two accumulators; [Ok] on normal exit and
    on [break]. *)
Fixpoint scan_back (trades : list Trade) (now trade_timedelta : Z)
    (indices : list nat) (total_traded : R) (total_quantity : Z)
    : result error (R * Z) :=
  match indices with
  | [] => Ok (total_traded, total_quantity)
  | i :: rest =>
      match getitem trades i with
      | Raise e => Raise e
      | Ok t =>
          if now - trade_timedelta >? timestamp t
          then Ok (total_traded, total_quantity)             (* break *)
          else scan_back trades now trade_timedelta rest
                 (total_traded + traded_price t * IZR (quantity t))%R
                 (total_quantity + quantity t)
      end
  end.

(** [SimpleTradeList.volume_weighted_stock_price].  An argument left
    out is [None]: [trade_timedelta] then takes its default of 15
    minutes, and [now], also when [None] is passed, the value [clock]
    that [datetime.datetime.now()] would return. *)
Definition volume_weighted_stock_price (clock : Z) (stock_symbol : string)
    (now : option Z) (trade_timedelta : option Z) : M R :=
  let trade_timedelta := default default_trade_timedelta trade_timedelta in
  let* trades := gets (fun self => records self !! stock_symbol) in
  if negb (truthy trades) then ret 0%R
  else
    let trades := default [] trades in
    let now := match now with None => clock | Some now => now end in
    let* totals :=
      lift (scan_back trades now trade_timedelta
              (range_down (length trades)) 0%R 0) in
    let '(total_traded, total_quantity) := totals in
    if total_quantity =? 0 then ret 0%R
    else lift (truediv total_traded (IZR total_quantity)).

(** *** Vocabulary of the specification *)

Definition sum_R (l : list R) : R := foldr Rplus 0%R l.
Definition prod_R (l : list R) : R := foldr Rmult 1%R l.
Definition sum_Z (l : list Z) : Z := foldr Z.add 0 l.

(** The trade sequence of a symbol; a symbol never seen has none. *)
Definition trades_of (self : SimpleTradeList) (stock_symbol : string)
    : list Trade :=
  default [] (records self !! stock_symbol).

(** Every recorded trade, symbol by symbol. *)
Definition map_trades (m : gmap string (list Trade)) : list Trade :=
  concat (map snd (map_to_list m)).
Definition all_trades (self : SimpleTradeList) : list Trade :=
  map_trades (records self).

(** The running aggregates agree with the recorded trades: the count
    is their number, the price sum the sum of their prices, and the
    log-sum the sum of the logarithms of their prices, each of which
    exists. *)
Definition aggregates_agree (self : SimpleTradeList) : Prop :=
  traded_price_count self = Z.of_nat (length (all_trades self)) /\
  total_traded_price self = sum_R (map traded_price (all_trades self)) /\
  Forall (fun t => (0 < traded_price t)%R) (all_trades self) /\
  total_traded_price_log self
  = sum_R (map (fun t => ln (traded_price t)) (all_trades self)).

(** Some symbol has a trade. *)
Definition holds_a_trade (self : SimpleTradeList) : Prop :=
  exists sym, trades_of self sym <> [].

(** Non-decreasing timestamps along a sequence. *)
Definition chronological (l : list Trade) : Prop :=
  forall (i j : nat) (a b : Trade),
    (i <= j)%nat -> l !! i = Some a -> l !! j = Some b ->
    timestamp a <= timestamp b.

(** The ledger invariant: every per-symbol sequence is chronological. *)
Definition ledger_chronological (self : SimpleTradeList) : Prop :=
  forall (stock_symbol : string) (l : list Trade),
    records self !! stock_symbol = Some l -> chronological l.

(** The precondition of [record_trade]: the trade is not older than the
    last trade recorded for its symbol. *)
Definition in_order (trade : Trade) (self : SimpleTradeList) : Prop :=
  forall t, last (trades_of self (symbol (stock trade))) = Some t ->
            timestamp t <= timestamp trade.

(** States the ledger can be in: [record_trade] is the only mutating
    method, and a call that raises leaves the state it had reached. *)
Inductive reachable : SimpleTradeList -> Prop :=
| reachable_init : reachable init
| reachable_record_trade (self : SimpleTradeList) (trade : Trade) :
    reachable self -> reachable (fst (record_trade trade self)).

(** [recorded ts self]: the ledger [self] results from the empty ledger
    by recording the trades [ts], in this order, each call returning
    normally. *)
Inductive recorded : list Trade -> SimpleTradeList -> Prop :=
| recorded_nil : recorded [] init
| recorded_snoc (ts : list Trade) (self self' : SimpleTradeList)
    (trade : Trade) :
    recorded ts self ->
    record_trade trade self = (self', Ok tt) ->
    recorded (ts ++ [trade]) self'.

(** [Σ traded_price × quantity] and [Σ quantity] over a sequence. *)
Definition sum_traded (l : list Trade) : R :=
  sum_R (map (fun t => traded_price t * IZR (quantity t))%R l).
Definition sum_quantity (l : list Trade) : Z :=
  sum_Z (map quantity l).

(** The trades of a sequence inside the window: [timestamp >= now - window]. *)
Definition in_window (now trade_timedelta : Z) (l : list Trade)
    : list Trade :=
  filter (fun t => now - trade_timedelta <= timestamp t) l.

(** The naive computation of the two sums: filter the whole history. *)
Definition naive_window_sums (trades : list Trade)
    (now trade_timedelta : Z) : R * Z :=
  (sum_traded (in_window now trade_timedelta trades),
   sum_quantity (in_window now trade_timedelta trades)).

(** The volume-weighted price in the words of the specification. *)
Definition spec_volume_weighted (trades : list Trade)
    (now trade_timedelta : Z) : R :=
  let inside := in_window now trade_timedelta trades in
  if sum_quantity inside =? 0 then 0%R
  else (sum_traded inside / IZR (sum_quantity inside))%R.

(** The state once the trade is appended and the count and price sum
    are updated: where [record_trade] stands when it takes the
    logarithm. *)
Definition before_log (trade : Trade) (self : SimpleTradeList)
    : SimpleTradeList :=
  {| records :=
       <[symbol (stock trade) :=
           trades_of self (symbol (stock trade)) ++ [trade]]> (records self);
     traded_price_count := traded_price_count self + 1;
     total_traded_price := (total_traded_price self + traded_price trade)%R;
     total_traded_price_log := total_traded_price_log self;
     last_timestamp := last_timestamp self |}.

(** The state a call that returns normally leaves. *)
Definition after_record (trade : Trade) (self : SimpleTradeList)
    : SimpleTradeList :=
  {| records :=
       <[symbol (stock trade) :=
           trades_of self (symbol (stock trade)) ++ [trade]]> (records self);
     traded_price_count := traded_price_count self + 1;
     total_traded_price := (total_traded_price self + traded_price trade)%R;
     total_traded_price_log :=
       (total_traded_price_log self + ln (traded_price trade))%R;
     last_timestamp :=
       Some (match last_timestamp self with
             | None => timestamp trade
             | Some t => Z.max t (timestamp trade)
             end) |}.

(** The latest timestamp of a sequence of trades. *)
Definition latest (ts : list Trade) : option Z :=
  foldl (fun acc t =>
           match acc with
           | None => Some (timestamp t)
           | Some m => Some (Z.max m (timestamp t))
           end) None ts.

(** *** Ledgers and trades of the test suite and of the examples *)

Definition stock1 : StockABC := CommonStock "TEST1" 8 100.
Definition stock2 : StockABC := PreferredStock "TEST2" 8 2 100.
Definition stock3 : StockABC := CommonStock "TEST3" 0 100.

(** A trade of [stock1] at timestamp 10, and the ledger holding it. *)
Definition trade_at_10 : Trade := mkTrade stock1 10 1 BUY 2.
Definition ledger_at_10 : SimpleTradeList := after_record trade_at_10 init.

(** An older trade of the same stock, its price positive or zero. *)
Definition trade_at_5 : Trade := mkTrade stock1 5 1 BUY 3.
Definition free_trade_at_5 : Trade := mkTrade stock1 5 1 BUY 0.

(** A trade at price zero that is in order, and the ledger in which the
    failed attempt to record it leaves [ledger_at_10]. *)
Definition free_trade_at_20 : Trade := mkTrade stock1 20 1 SELL 0.
Definition ledger_partial : SimpleTradeList :=
  before_log free_trade_at_20 ledger_at_10.

(** The third ledger of [test_volume_weighted_stock_price]: trades 20,
    10 and 5 minutes before [now]. *)
Definition test_now : Z := minutes 100000.
Definition window_trade1 : Trade :=
  mkTrade stock1 (test_now - minutes 20) 1 BUY 10.
Definition window_trade2 : Trade :=
  mkTrade stock1 (test_now - minutes 10) 1 BUY 20.
Definition window_trade3 : Trade :=
  mkTrade stock1 (test_now - minutes 5) 1 BUY 30.
Definition window_trades : list Trade :=
  [window_trade1; window_trade2; window_trade3].
Definition window_ledger : SimpleTradeList :=
  after_record window_trade3
    (after_record window_trade2 (after_record window_trade1 init)).

(** The first two ledgers of [test_volume_weighted_stock_price]: three
    trades 3, 2 and 1 minutes before [now]. *)
Definition equal_trades : list Trade :=
  [mkTrade stock1 (test_now - minutes 3) 1 BUY 2;
   mkTrade stock1 (test_now - minutes 2) 1 BUY 3;
   mkTrade stock1 (test_now - minutes 1) 1 BUY 4].
Definition equal_ledger : SimpleTradeList :=
  foldl (fun self t => after_record t self) init equal_trades.

Definition weighted_trades : list Trade :=
  [mkTrade stock1 (test_now - minutes 3) 2 BUY 2;
   mkTrade stock1 (test_now - minutes 2) 3 BUY 5;
   mkTrade stock1 (test_now - minutes 1) 4 BUY 6].
Definition weighted_ledger : SimpleTradeList :=
  foldl (fun self t => after_record t self) init weighted_trades.

(** A sequence that is not chronological: a trade inside the window
    followed by one older than the window. *)
Definition shuffled_trades : list Trade := [window_trade3; window_trade1].

(** The two ledgers of [test_geometric_mean]: prices 2 and 8, and
    prices 4, 1 and 1/32, each trade of a different stock. *)
Definition mean_trades1 : list Trade :=
  [mkTrade stock1 (test_now - minutes 2) 1 BUY 2;
   mkTrade stock2 (test_now - minutes 1) 1 BUY 8].
Definition mean_ledger1 : SimpleTradeList :=
  foldl (fun self t => after_record t self) init mean_trades1.

Definition mean_trades2 : list Trade :=
  [mkTrade stock1 (test_now - minutes 3) 1 BUY 4;
   mkTrade stock2 (test_now - minutes 2) 1 BUY 1;
   mkTrade stock3 (test_now - minutes 1) 1 BUY (1 / 32)].
Definition mean_ledger2 : SimpleTradeList :=
  foldl (fun self t => after_record t self) init mean_trades2.

(** A trade of another stock, older than the trade of [stock1]. *)
Definition trade2_at_5 : Trade := mkTrade stock2 5 1 BUY 8.
Definition ledger_interleaved : SimpleTradeList :=
  after_record trade2_at_5 ledger_at_10.

(** *** Construction of a trade *)

(** The [indicator] argument of [Trade]: a member of [TradeIndicator]
    or a string. *)
Inductive indicator_arg :=
| IndMember (m : TradeIndicator)
| IndStr (label : string).

(** The [ValueError] of the enumeration:
    [... is not a valid TradeIndicator]. *)
Inductive trade_error :=
| NotAValidTradeIndicator (label : string).

(** [BUY = 'Buy'], [SELL = 'Sell']. *)
Definition TradeIndicator_value (m : TradeIndicator) : string :=
  match m with
  | BUY => "Buy"
  | SELL => "Sell"
  end.

(** [TradeIndicator(indicator)] *)
Definition TradeIndicator_call (indicator : indicator_arg)
    : result trade_error TradeIndicator :=
  match indicator with
  | IndMember m => Ok m
  | IndStr label =>
      if String.eqb label (TradeIndicator_value BUY) then Ok BUY
      else if String.eqb label (TradeIndicator_value SELL) then Ok SELL
      else Raise (NotAValidTradeIndicator label)
  end.

(** [Trade.__init__].  The two [isinstance] assertions hold by the types
    of [stock] and [timestamp]. *)
Definition Trade_init (stock : StockABC) (timestamp quantity : Z)
    (indicator : indicator_arg) (traded_price : R)
    : result trade_error Trade :=
  match TradeIndicator_call indicator with
  | Raise e => Raise e
  | Ok i => Ok (mkTrade stock timestamp quantity i traded_price)
  end.

(** *** Sequences of calls *)

(** The ledger after the calls [record_trade(t)] for the trades of
    [ts] in turn, the caller going on after a call that raised. *)
Definition record_all (ts : list Trade) (self : SimpleTradeList)
    : SimpleTradeList :=
  foldl (fun self t => fst (record_trade t self)) self ts.

(** The trades the backward scan visits before it stops, the most
    recent first: [l] is a sequence read from its end. *)
Fixpoint while_recent (bound : Z) (l : list Trade) : list Trade :=
  match l with
  | [] => []
  | t :: l' =>
      if decide (bound <= timestamp t) then t :: while_recent bound l'
      else []
  end.
Definition scanned (now trade_timedelta : Z) (trades : list Trade)
    : list Trade :=
  while_recent (now - trade_timedelta) (rev trades).

(** Examples for the properties below. *)
Definition shuffled_ledger : SimpleTradeList :=
  {| records := {[ "TEST1"%string := shuffled_trades ]};
     traded_price_count := 2;
     total_traded_price := 40%R;
     total_traded_price_log := 0%R;
     last_timestamp := None |}.
Definition trade_b_at_5 : Trade := mkTrade stock2 5 3 SELL 8.
Definition trade_at_10_again : Trade := mkTrade stock1 10 2 SELL 4.
Definition feed : list Trade :=
  [trade_at_10; trade_at_10_again; mkTrade stock2 12 1 BUY 8].

End trade.

(** ** Theorems about stock.py *)

Module stock_facts.
Import py stock.
Local Open Scope R_scope.

Lemma truediv_nonzero (a b : R) : b <> 0 -> truediv a b = Ok (a / b).
Proof.
  intros Hb. unfold truediv. destruct (Req_dec_T b 0); [contradiction|].
  reflexivity.
Qed.

Lemma dividend_yield_zero_price (s : StockABC) :
  dividend_yield s 0 = Ok 0.
Proof.
  destruct s; simpl; destruct (Req_dec_T 0 0); congruence.
Qed.

Lemma dividend_yield_nonzero_price (s : StockABC) (price : R) :
  price <> 0 -> dividend_yield s price = Ok (spec_dividend_yield s price).
Proof.
  intros Hp.
  destruct s; simpl; destruct (Req_dec_T price 0); try contradiction.
  - apply truediv_nonzero, Hp.
  - rewrite truediv_nonzero by lra. f_equal.
    unfold spec_dividend_yield, spec_dividend. field. exact Hp.
Qed.

(** The yield never raises: the division is guarded. *)
Lemma dividend_yield_total (s : StockABC) (price : R) :
  exists dy, dividend_yield s price = Ok dy.
Proof.
  destruct (Req_dec_T price 0) as [->|Hp].
  - exists 0. apply dividend_yield_zero_price.
  - eexists. apply dividend_yield_nonzero_price, Hp.
Qed.

(** C7: [dividend_yield] returns 0 at price 0 for both variants; at a
    nonzero price the common variant returns [last_dividend / price] and
    the preferred variant [(fixed_dividend / 100 * par_value) / price],
    as an exact quotient. *)
Theorem dividend_yield_formula (s : StockABC) (price : R) :
  (price = 0 -> dividend_yield s price = Ok 0) /\
  (price <> 0 ->
   dividend_yield s price = Ok (spec_dividend_yield s price)).
Proof.
  split.
  - intros ->. apply dividend_yield_zero_price.
  - apply dividend_yield_nonzero_price.
Qed.

(** The preferred instrument of the test suite: yields 2 at price 1,
    1 at price 2 and 0 at price 0. *)
Lemma dividend_yield_formula_witness :
  dividend_yield test_preferred 1 = Ok 2 /\
  dividend_yield test_preferred 2 = Ok 1 /\
  dividend_yield test_preferred 0 = Ok 0.
Proof.
  pose proof (dividend_yield_formula test_preferred 1) as [_ H1].
  pose proof (dividend_yield_formula test_preferred 2) as [_ H2].
  pose proof (dividend_yield_formula test_preferred 0) as [H0 _].
  split; [|split].
  - rewrite H1 by lra. f_equal. unfold spec_dividend_yield; simpl. lra.
  - rewrite H2 by lra. f_equal. unfold spec_dividend_yield; simpl. lra.
  - apply H0. reflexivity.
Defined.

Ltac common_yield :=
  rewrite dividend_yield_nonzero_price by lra;
  f_equal; unfold spec_dividend_yield; simpl; lra.

(** The common instrument of the test suite. *)
Example common_dividend_yield_examples :
  dividend_yield test_common 0 = Ok 0 /\
  dividend_yield test_common 1 = Ok 120 /\
  dividend_yield test_common 2 = Ok 60 /\
  dividend_yield test_common 3 = Ok 40 /\
  dividend_yield test_common 120 = Ok 1.
Proof.
  repeat split; [apply dividend_yield_zero_price | common_yield ..].
Qed.

Lemma pe_ratio_zero_yield (s : StockABC) (price : R) :
  dividend_yield s price = Ok 0 -> pe_ratio s price = Ok 0.
Proof.
  intros H. unfold pe_ratio. rewrite H.
  destruct (Req_dec_T 0 0); congruence.
Qed.

Lemma pe_ratio_nonzero_yield (s : StockABC) (price dy : R) :
  dividend_yield s price = Ok dy -> dy <> 0 ->
  pe_ratio s price = Ok (price / dy).
Proof.
  intros H Hdy. unfold pe_ratio. rewrite H.
  destruct (Req_dec_T dy 0); [contradiction|].
  apply truediv_nonzero, Hdy.
Qed.

(** C8: [pe_ratio] returns 0 whenever the dividend yield is 0 and
    [price / dividend_yield price] otherwise; the yield is 0 at price 0
    and for an instrument whose dividend is 0. *)
Theorem pe_ratio_formula (s : StockABC) (price : R) :
  exists dy,
    dividend_yield s price = Ok dy /\
    (dy = 0 -> pe_ratio s price = Ok 0) /\
    (dy <> 0 -> pe_ratio s price = Ok (price / dy)) /\
    (price = 0 -> dy = 0) /\
    (spec_dividend s = 0 -> dy = 0).
Proof.
  destruct (dividend_yield_total s price) as [dy Hdy].
  exists dy. split; [exact Hdy|]. split; [|split; [|split]].
  - intros ->. apply pe_ratio_zero_yield, Hdy.
  - intros Hnz. apply pe_ratio_nonzero_yield; assumption.
  - intros ->. rewrite dividend_yield_zero_price in Hdy. congruence.
  - intros Hd. destruct (Req_dec_T price 0) as [->|Hp].
    + rewrite dividend_yield_zero_price in Hdy. congruence.
    + rewrite dividend_yield_nonzero_price in Hdy by exact Hp.
      injection Hdy as <-. unfold spec_dividend_yield. rewrite Hd.
      unfold Rdiv. apply Rmult_0_l.
Qed.

(** The test suite's values: [pe_ratio 0 = 0], [pe_ratio 60 = 30] and
    [pe_ratio 120 = 120] for a last dividend of 120, and 0 for an
    instrument without dividend. *)
Lemma pe_ratio_formula_witness :
  pe_ratio test_common 0 = Ok 0 /\
  pe_ratio test_common 60 = Ok 30 /\
  pe_ratio test_common 120 = Ok 120 /\
  pe_ratio test_zero_dividend 7 = Ok 0.
Proof.
  assert (D60 : dividend_yield test_common 60 = Ok 2) by common_yield.
  assert (D120 : dividend_yield test_common 120 = Ok 1) by common_yield.
  split; [|split; [|split]].
  - destruct (pe_ratio_formula test_common 0) as (dy & _ & H0 & _ & Hp & _).
    apply H0, Hp. reflexivity.
  - destruct (pe_ratio_formula test_common 60) as (dy & Hdy & _ & H & _).
    rewrite D60 in Hdy. injection Hdy as <-.
    rewrite H by lra. f_equal. lra.
  - destruct (pe_ratio_formula test_common 120) as (dy & Hdy & _ & H & _).
    rewrite D120 in Hdy. injection Hdy as <-.
    rewrite H by lra. f_equal. lra.
  - destruct (pe_ratio_formula test_zero_dividend 7)
      as (dy & _ & H0 & _ & _ & Hd).
    apply H0, Hd. reflexivity.
Defined.

End stock_facts.

(** ** Theorems about trade.py *)

Module trade_facts.
Import py stock trade.
Local Open Scope Z_scope.

(** *** Running [record_trade] *)

Lemma setdefault_then_append (key : string) (trade : Trade)
    (m : gmap string (list Trade)) :
  alter (fun l => l ++ [trade]) key
    (match m !! key with Some _ => m | None => <[key := []]> m end)
  = <[key := default [] (m !! key) ++ [trade]]> m.
Proof.
  apply map_eq. intros k.
  destruct (decide (k = key)) as [->|Hne].
  - rewrite lookup_alter_eq, lookup_insert_eq.
    destruct (m !! key) as [l|] eqn:Hk; simpl.
    + rewrite Hk. reflexivity.
    + rewrite lookup_insert_eq. reflexivity.
  - rewrite lookup_alter_ne, lookup_insert_ne by congruence.
    destruct (m !! key); [reflexivity|].
    rewrite lookup_insert_ne by congruence. reflexivity.
Qed.

Lemma math_log_positive (x : R) : (0 < x)%R -> math_log x = Ok (ln x).
Proof.
  intros H. unfold math_log. destruct (Rlt_dec 0 x); [reflexivity|].
  contradiction.
Qed.

Lemma math_log_nonpositive (x : R) :
  (x <= 0)%R -> math_log x = Raise ValueError.
Proof.
  intros H. unfold math_log. destruct (Rlt_dec 0 x); [lra|reflexivity].
Qed.

(** The ordering assertion fails: nothing has been written. *)
Lemma record_trade_late (trade : Trade) (self : SimpleTradeList) (t : Trade) :
  last (trades_of self (symbol (stock trade))) = Some t ->
  timestamp trade < timestamp t ->
  record_trade trade self
  = (self, Raise (AssertionError (symbol (stock trade)) trade)).
Proof.
  intros Hlast Hlt. unfold trades_of in Hlast.
  unfold record_trade, bind, records_setdefault.
  destruct (records self !! symbol (stock trade)) as [l|] eqn:Hk;
    simpl in Hlast; [|discriminate].
  rewrite Hlast.
  destruct (Z.leb_spec (timestamp t) (timestamp trade)); [lia|].
  reflexivity.
Qed.

(** The ordering assertion holds: the trade is appended and the count
    and price sum are updated before the logarithm is taken. *)
Lemma record_trade_in_order (trade : Trade) (self : SimpleTradeList) :
  in_order trade self ->
  record_trade trade self
  = match math_log (traded_price trade) with
    | Ok _ => (after_record trade self, Ok tt)
    | Raise e => (before_log trade self, Raise (Builtin e))
    end.
Proof.
  intros Hord. unfold in_order, trades_of in Hord.
  pose proof (setdefault_then_append (symbol (stock trade)) trade
                (records self)) as Happ.
  unfold record_trade, bind, records_setdefault, trade_list_append,
    modify, gets, assert_, ret, raise.
  unfold after_record, before_log, trades_of.
  destruct (records self !! symbol (stock trade)) as [l|] eqn:Hk;
    simpl in *.
  - destruct (last l) as [t|] eqn:Hl.
    + specialize (Hord t eq_refl).
      destruct (Z.leb_spec (timestamp t) (timestamp trade)); [|lia].
      simpl. rewrite Happ.
      unfold math_log. destruct (Rlt_dec 0 (traded_price trade)); simpl.
      * destruct (last_timestamp self); reflexivity.
      * reflexivity.
    + simpl. rewrite Happ.
      unfold math_log. destruct (Rlt_dec 0 (traded_price trade)); simpl.
      * destruct (last_timestamp self); reflexivity.
      * reflexivity.
  - rewrite Happ.
    unfold math_log. destruct (Rlt_dec 0 (traded_price trade)); simpl.
    + destruct (last_timestamp self); reflexivity.
    + reflexivity.
Qed.

(** Every call takes one of three paths. *)
Lemma record_trade_cases (trade : Trade) (self : SimpleTradeList) :
  (exists t, last (trades_of self (symbol (stock trade))) = Some t /\
             timestamp trade < timestamp t /\
             record_trade trade self
             = (self, Raise (AssertionError (symbol (stock trade)) trade)))
  \/ (in_order trade self /\ (0 < traded_price trade)%R /\
      record_trade trade self = (after_record trade self, Ok tt))
  \/ (in_order trade self /\ (traded_price trade <= 0)%R /\
      record_trade trade self
      = (before_log trade self, Raise (Builtin ValueError))).
Proof.
  destruct (last (trades_of self (symbol (stock trade)))) as [t|] eqn:Hl.
  - destruct (Z.lt_ge_cases (timestamp trade) (timestamp t)) as [Hlt|Hge].
    + left. exists t. split; [reflexivity|]. split; [exact Hlt|].
      apply record_trade_late with t; assumption.
    + right.
      assert (Hord : in_order trade self).
      { intros t' Ht'. rewrite Hl in Ht'. injection Ht' as <-. lia. }
      rewrite (record_trade_in_order _ _ Hord).
      destruct (Rlt_le_dec 0 (traded_price trade)) as [Hp|Hp].
      * left. rewrite math_log_positive by exact Hp. auto.
      * right. rewrite math_log_nonpositive by exact Hp. auto.
  - right.
    assert (Hord : in_order trade self).
    { intros t' Ht'. rewrite Hl in Ht'. discriminate. }
    rewrite (record_trade_in_order _ _ Hord).
    destruct (Rlt_le_dec 0 (traded_price trade)) as [Hp|Hp].
    + left. rewrite math_log_positive by exact Hp. auto.
    + right. rewrite math_log_nonpositive by exact Hp. auto.
Qed.

(** A call that returns normally was in order, at a positive price, and
    leaves [after_record]. *)
Lemma record_trade_Ok_inv (trade : Trade) (self self' : SimpleTradeList) :
  record_trade trade self = (self', Ok tt) ->
  in_order trade self /\ (0 < traded_price trade)%R /\
  self' = after_record trade self.
Proof.
  intros H.
  destruct (record_trade_cases trade self)
    as [(t & _ & _ & E)|[(Ho & Hp & E)|(_ & _ & E)]];
    rewrite E in H; try discriminate.
  injection H as <-. auto.
Qed.

(** C3: a trade older than the last trade recorded for its symbol makes
    [record_trade] raise the ordering error, which carries the symbol
    and the trade, and the ledger is left exactly as it was; a symbol
    without history never raises the ordering error. *)
Theorem record_trade_ordering_error (trade : Trade)
    (self : SimpleTradeList) :
  (forall t,
     last (trades_of self (symbol (stock trade))) = Some t ->
     timestamp trade < timestamp t ->
     record_trade trade self
     = (self, Raise (AssertionError (symbol (stock trade)) trade))) /\
  (trades_of self (symbol (stock trade)) = [] ->
   forall sym tr,
     snd (record_trade trade self) <> Raise (AssertionError sym tr)).
Proof.
  split.
  - intros t. apply record_trade_late.
  - intros Hnil sym tr.
    destruct (record_trade_cases trade self)
      as [(t & Hl & _)|[(_ & _ & E)|(_ & _ & E)]].
    + rewrite Hnil in Hl. discriminate.
    + rewrite E. discriminate.
    + rewrite E. discriminate.
Qed.

Lemma ledger_at_10_last :
  last (trades_of ledger_at_10 (symbol (stock trade_at_5)))
  = Some trade_at_10.
Proof. reflexivity. Qed.

(** A trade at timestamp 5 after one at timestamp 10 for the same
    symbol is refused and the ledger is unchanged; the first trade of a
    ledger is never refused for its order. *)
Lemma record_trade_ordering_error_witness :
  record_trade trade_at_5 ledger_at_10
  = (ledger_at_10, Raise (AssertionError "TEST1" trade_at_5)) /\
  snd (record_trade trade_at_5 init)
  <> Raise (AssertionError "TEST1" trade_at_5).
Proof.
  split.
  - apply (proj1 (record_trade_ordering_error trade_at_5 ledger_at_10)
             trade_at_10).
    + exact ledger_at_10_last.
    + reflexivity.
  - apply (proj2 (record_trade_ordering_error trade_at_5 init)).
    reflexivity.
Defined.

(** *** What the reachable ledgers satisfy *)

Lemma chronological_nil : chronological [].
Proof. intros i j a b _ Ha. rewrite lookup_nil in Ha. discriminate. Qed.

Lemma chronological_snoc (l : list Trade) (x : Trade) :
  chronological l ->
  (forall t, last l = Some t -> timestamp t <= timestamp x) ->
  chronological (l ++ [x]).
Proof.
  intros Hl Hlast i j a b Hij Ha Hb.
  assert (Hj : (j < length (l ++ [x]))%nat) by (eapply lookup_lt_Some; eauto).
  rewrite length_app in Hj. simpl in Hj.
  destruct (decide (j < length l)%nat) as [Hjl|Hjl].
  - rewrite lookup_app_l in Ha, Hb by lia.
    apply (Hl i j a b); assumption.
  - assert (j = length l) as -> by lia.
    rewrite list_lookup_middle in Hb by reflexivity. injection Hb as <-.
    destruct (decide (i = length l)) as [->|Hi].
    + rewrite list_lookup_middle in Ha by reflexivity.
      injection Ha as <-. lia.
    + rewrite lookup_app_l in Ha by lia.
      destruct (last l) as [t|] eqn:Ht.
      * rewrite last_lookup in Ht.
        transitivity (timestamp t); [|apply Hlast; reflexivity].
        apply (Hl i (pred (length l)) a t); [lia|exact Ha|exact Ht].
      * apply last_None in Ht. subst l. simpl in Hjl. 
        rewrite lookup_nil in Ha. discriminate.
Qed.

Lemma ledger_chronological_init : ledger_chronological init.
Proof. intros sym l H. simpl in H. rewrite lookup_empty in H. discriminate. Qed.

Lemma ledger_chronological_trades_of (self : SimpleTradeList) (sym : string) :
  ledger_chronological self -> chronological (trades_of self sym).
Proof.
  intros H. unfold trades_of.
  destruct (records self !! sym) as [l|] eqn:Hk; simpl.
  - eapply H, Hk.
  - apply chronological_nil.
Qed.

(** Appending a trade that is in order keeps every sequence
    chronological. *)
Lemma ledger_chronological_append (trade : Trade) (self self' : SimpleTradeList) :
  ledger_chronological self -> in_order trade self ->
  records self'
  = <[symbol (stock trade) :=
        trades_of self (symbol (stock trade)) ++ [trade]]> (records self) ->
  ledger_chronological self'.
Proof.
  intros Hinv Hord Hrec sym l Hl. rewrite Hrec in Hl.
  destruct (decide (sym = symbol (stock trade))) as [->|Hne].
  - rewrite lookup_insert_eq in Hl. injection Hl as <-.
    apply chronological_snoc.
    + apply ledger_chronological_trades_of, Hinv.
    + exact Hord.
  - rewrite lookup_insert_ne in Hl by congruence. eapply Hinv, Hl.
Qed.

Lemma record_trade_chronological (trade : Trade) (self : SimpleTradeList) :
  ledger_chronological self ->
  ledger_chronological (fst (record_trade trade self)).
Proof.
  intros Hinv.
  destruct (record_trade_cases trade self)
    as [(t & _ & _ & E)|[(Ho & _ & E)|(Ho & _ & E)]]; rewrite E; simpl.
  - exact Hinv.
  - eapply ledger_chronological_append; eauto.
  - eapply ledger_chronological_append; eauto.
Qed.

Lemma reachable_chronological (self : SimpleTradeList) :
  reachable self -> ledger_chronological self.
Proof.
  induction 1.
  - apply ledger_chronological_init.
  - apply record_trade_chronological. assumption.
Qed.

Lemma recorded_reachable (ts : list Trade) (self : SimpleTradeList) :
  recorded ts self -> reachable self.
Proof.
  induction 1 as [|ts self self' trade _ IH E].
  - constructor.
  - replace self' with (fst (record_trade trade self)) by (rewrite E; reflexivity).
    constructor. exact IH.
Qed.

Lemma append_holds_a_trade (trade : Trade) (self self' : SimpleTradeList) :
  records self'
  = <[symbol (stock trade) :=
        trades_of self (symbol (stock trade)) ++ [trade]]> (records self) ->
  holds_a_trade self'.
Proof.
  intros Hrec. exists (symbol (stock trade)). unfold trades_of at 1.
  rewrite Hrec, lookup_insert_eq. simpl.
  intros H. apply app_eq_nil in H as [_ H]. discriminate.
Qed.

Lemma reachable_last_timestamp (self : SimpleTradeList) :
  reachable self -> last_timestamp self <> None -> holds_a_trade self.
Proof.
  induction 1 as [|self trade _ IH].
  - simpl. congruence.
  - destruct (record_trade_cases trade self)
      as [(t & _ & _ & E)|[(_ & _ & E)|(_ & _ & E)]]; rewrite E; simpl.
    + exact IH.
    + intros _. eapply append_holds_a_trade. reflexivity.
    + intros _. eapply append_holds_a_trade. reflexivity.
Qed.

Lemma reachable_empty_last_timestamp (self : SimpleTradeList) :
  reachable self -> (forall sym, trades_of self sym = []) ->
  last_timestamp self = None.
Proof.
  intros Hr Hempty.
  destruct (last_timestamp self) as [t|] eqn:E; [|reflexivity].
  destruct (reachable_last_timestamp self Hr) as [sym Hsym].
  - congruence.
  - contradiction (Hsym (Hempty sym)).
Qed.

(** C4: a call of [record_trade] that returns normally has appended the
    trade at the end of its symbol's sequence and left the other
    sequences alone, has added 1 to the count, the traded price to the
    price sum and its logarithm to the log-sum, and has set the global
    timestamp to the maximum of its former value and the trade's
    timestamp, which is the trade's timestamp when the ledger held no
    trade. *)
Theorem record_trade_effect (trade : Trade) (self self' : SimpleTradeList) :
  record_trade trade self = (self', Ok tt) ->
  records self' !! symbol (stock trade)
  = Some (trades_of self (symbol (stock trade)) ++ [trade]) /\
  (forall other, other <> symbol (stock trade) ->
                 records self' !! other = records self !! other) /\
  traded_price_count self' = traded_price_count self + 1 /\
  total_traded_price self'
  = (total_traded_price self + traded_price trade)%R /\
  total_traded_price_log self'
  = (total_traded_price_log self + ln (traded_price trade))%R /\
  (0 < traded_price trade)%R /\
  (forall t, last_timestamp self = Some t ->
             last_timestamp self' = Some (Z.max t (timestamp trade))) /\
  (last_timestamp self = None ->
   last_timestamp self' = Some (timestamp trade)) /\
  (reachable self -> (forall sym, trades_of self sym = []) ->
   last_timestamp self' = Some (timestamp trade)).
Proof.
  intros H. apply record_trade_Ok_inv in H as (_ & Hp & ->).
  assert (Hnone : last_timestamp self = None ->
                  last_timestamp (after_record trade self)
                  = Some (timestamp trade)).
  { intros E. simpl. rewrite E. reflexivity. }
  repeat split; simpl; try reflexivity.
  - apply lookup_insert_eq.
  - intros other Hne. apply lookup_insert_ne. congruence.
  - exact Hp.
  - intros t ->. reflexivity.
  - exact Hnone.
  - intros Hr Hempty. apply Hnone.
    apply reachable_empty_last_timestamp; assumption.
Qed.

Lemma record_trade_at_10 :
  record_trade trade_at_10 init = (ledger_at_10, Ok tt).
Proof.
  rewrite record_trade_in_order.
  - rewrite math_log_positive; [reflexivity|]. simpl. lra.
  - intros t Ht. discriminate.
Qed.

(** The first trade of a ledger becomes the only trade of its symbol
    and the global timestamp is its timestamp. *)
Lemma record_trade_effect_witness :
  records ledger_at_10 !! "TEST1"%string = Some [trade_at_10] /\
  traded_price_count ledger_at_10 = 1 /\
  last_timestamp ledger_at_10 = Some 10.
Proof.
  pose proof (record_trade_effect trade_at_10 init ledger_at_10
                record_trade_at_10)
    as (Hrec & _ & Hcount & _ & _ & _ & _ & Hlast & _).
  split; [exact Hrec|]. split; [exact Hcount|].
  apply Hlast. reflexivity.
Defined.

(** C5: every per-symbol sequence of a ledger built by calls of
    [record_trade] that returned normally is chronological; so is every
    sequence of a ledger reached through calls that raised; and a call
    of [record_trade], whatever its outcome, keeps the sequences
    chronological. *)
Theorem ledger_order_invariant :
  (forall ts self, recorded ts self -> ledger_chronological self) /\
  (forall self, reachable self -> ledger_chronological self) /\
  (forall self trade,
     ledger_chronological self ->
     ledger_chronological (fst (record_trade trade self))).
Proof.
  split; [|split].
  - intros ts self H. eapply reachable_chronological, recorded_reachable, H.
  - apply reachable_chronological.
  - intros self trade. apply record_trade_chronological.
Qed.

Lemma record_trade2_at_5 :
  record_trade trade2_at_5 ledger_at_10 = (ledger_interleaved, Ok tt).
Proof.
  rewrite record_trade_in_order.
  - rewrite math_log_positive; [reflexivity|]. simpl. lra.
  - intros t Ht. discriminate.
Qed.

Lemma recorded_interleaved :
  recorded [trade_at_10; trade2_at_5] ledger_interleaved.
Proof.
  apply (recorded_snoc [trade_at_10] ledger_at_10).
  - apply (recorded_snoc [] init); [constructor|].
    exact record_trade_at_10.
  - exact record_trade2_at_5.
Qed.

(** A trade of one symbol at timestamp 10 followed by a trade of another
    symbol at timestamp 5: both are recorded, and each sequence is
    chronological. *)
Lemma ledger_order_invariant_witness :
  ledger_chronological ledger_interleaved /\
  trades_of ledger_interleaved "TEST1" = [trade_at_10] /\
  trades_of ledger_interleaved "TEST2" = [trade2_at_5].
Proof.
  split; [|split; reflexivity].
  apply (proj1 ledger_order_invariant [trade_at_10; trade2_at_5]).
  exact recorded_interleaved.
Defined.

(** *** Sums and products over sequences *)

Lemma sum_R_cons (x : R) (l : list R) : sum_R (x :: l) = (x + sum_R l)%R.
Proof. reflexivity. Qed.

Lemma prod_R_cons (x : R) (l : list R) :
  prod_R (x :: l) = (x * prod_R l)%R.
Proof. reflexivity. Qed.

Lemma sum_Z_cons (x : Z) (l : list Z) : sum_Z (x :: l) = x + sum_Z l.
Proof. reflexivity. Qed.

Lemma sum_R_app (l k : list R) : sum_R (l ++ k) = (sum_R l + sum_R k)%R.
Proof.
  induction l as [|x l IH].
  - change (sum_R []) with 0%R. simpl. lra.
  - simpl app. rewrite !sum_R_cons, IH. lra.
Qed.

Lemma sum_R_snoc (l : list R) (x : R) : sum_R (l ++ [x]) = (sum_R l + x)%R.
Proof. rewrite sum_R_app, sum_R_cons. change (sum_R []) with 0%R. lra. Qed.

Lemma sum_Z_app (l k : list Z) : sum_Z (l ++ k) = sum_Z l + sum_Z k.
Proof.
  induction l as [|x l IH].
  - reflexivity.
  - simpl app. rewrite !sum_Z_cons, IH. lia.
Qed.

Lemma sum_R_Permutation (l k : list R) : l ≡ₚ k -> sum_R l = sum_R k.
Proof.
  induction 1 as [|x l k _ IH|x y l|l k m _ IH1 _ IH2].
  - reflexivity.
  - rewrite !sum_R_cons, IH. reflexivity.
  - rewrite !sum_R_cons. lra.
  - congruence.
Qed.

Lemma prod_R_Permutation (l k : list R) : l ≡ₚ k -> prod_R l = prod_R k.
Proof.
  induction 1 as [|x l k _ IH|x y l|l k m _ IH1 _ IH2].
  - reflexivity.
  - rewrite !prod_R_cons, IH. reflexivity.
  - rewrite !prod_R_cons. lra.
  - congruence.
Qed.

Lemma concat_Permutation {A} (l k : list (list A)) :
  l ≡ₚ k -> concat l ≡ₚ concat k.
Proof.
  induction 1 as [|x l k _ IH|x y l|l k m _ IH1 _ IH2]; simpl.
  - reflexivity.
  - rewrite IH. reflexivity.
  - rewrite !app_assoc. apply Permutation_app_tail, Permutation_app_comm.
  - etransitivity; eassumption.
Qed.

(** *** The trades of the map after an append *)

Lemma map_trades_insert_fresh (m : gmap string (list Trade))
    (key : string) (l : list Trade) :
  m !! key = None -> map_trades (<[key := l]> m) ≡ₚ l ++ map_trades m.
Proof.
  intros Hk. unfold map_trades.
  transitivity (concat (map snd ((key, l) :: map_to_list m))).
  - apply concat_Permutation, Permutation_map, map_to_list_insert, Hk.
  - reflexivity.
Qed.

Lemma map_trades_append (m : gmap string (list Trade))
    (key : string) (trade : Trade) :
  map_trades (<[key := default [] (m !! key) ++ [trade]]> m)
  ≡ₚ map_trades m ++ [trade].
Proof.
  destruct (m !! key) as [l|] eqn:Hk; simpl.
  - rewrite <- (insert_delete_id m key l Hk) at 2.
    rewrite <- insert_delete_eq.
    rewrite !map_trades_insert_fresh by apply lookup_delete_eq.
    rewrite <- !app_assoc.
    apply Permutation_app_head, Permutation_app_comm.
  - rewrite map_trades_insert_fresh by exact Hk. simpl.
    apply Permutation_cons_append.
Qed.

(** *** Ledgers built by calls that returned normally *)

Lemma latest_snoc (ts : list Trade) (t : Trade) :
  latest (ts ++ [t])
  = Some (match latest ts with
          | None => timestamp t
          | Some m => Z.max m (timestamp t)
          end).
Proof.
  unfold latest. rewrite foldl_snoc.
  destruct (foldl _ None ts); reflexivity.
Qed.

(** The running aggregates are those of the recorded trades, and the
    sequences hold exactly the recorded trades, each under its symbol
    and in the order of recording. *)
Lemma recorded_aggregates (ts : list Trade) (self : SimpleTradeList) :
  recorded ts self ->
  traded_price_count self = Z.of_nat (length ts) /\
  total_traded_price self = sum_R (map traded_price ts) /\
  total_traded_price_log self
  = sum_R (map (fun t => ln (traded_price t)) ts) /\
  Forall (fun t => (0 < traded_price t)%R) ts /\
  last_timestamp self = latest ts /\
  (forall sym,
     trades_of self sym = filter (fun t => symbol (stock t) = sym) ts) /\
  all_trades self ≡ₚ ts.
Proof.
  induction 1 as [|ts self self' trade _ IH E].
  - repeat split; try reflexivity. constructor.
  - destruct IH as (Hc & Ht & Hl & Hpos & Hlast & Hsym & Hall).
    apply record_trade_Ok_inv in E as (_ & Hp & ->).
    split; [|split; [|split; [|split; [|split; [|split]]]]]; simpl.
    + rewrite Hc, length_app. simpl. lia.
    + rewrite Ht, map_app. simpl (map _ [trade]).
      rewrite sum_R_snoc. reflexivity.
    + rewrite Hl, map_app. simpl (map _ [trade]).
      rewrite sum_R_snoc. reflexivity.
    + apply Forall_app. split; [exact Hpos|]. repeat constructor. exact Hp.
    + rewrite latest_snoc, Hlast. reflexivity.
    + intros sym. rewrite filter_app. unfold trades_of at 1. simpl.
      destruct (decide (sym = symbol (stock trade))) as [->|Hne].
      * rewrite lookup_insert_eq. simpl. rewrite Hsym.
        rewrite (filter_cons_True _ trade []) by reflexivity.
        reflexivity.
      * rewrite lookup_insert_ne by congruence.
        rewrite (filter_cons_False _ trade []) by congruence.
        rewrite filter_nil, app_nil_r. apply Hsym.
    + unfold all_trades. simpl. unfold trades_of.
      rewrite map_trades_append. fold (all_trades self).
      rewrite Hall. reflexivity.
Qed.

(** The count is the number of recorded trades in every reachable
    state, also after a call that raised. *)
Lemma all_trades_append (trade : Trade) (self self' : SimpleTradeList) :
  records self'
  = <[symbol (stock trade) :=
        trades_of self (symbol (stock trade)) ++ [trade]]> (records self) ->
  all_trades self' ≡ₚ all_trades self ++ [trade].
Proof.
  intros E. unfold all_trades. rewrite E. apply map_trades_append.
Qed.

Lemma reachable_count (self : SimpleTradeList) :
  reachable self ->
  traded_price_count self = Z.of_nat (length (all_trades self)).
Proof.
  induction 1 as [|self trade _ IH].
  - reflexivity.
  - destruct (record_trade_cases trade self)
      as [(t & _ & _ & E)|[(_ & _ & E)|(_ & _ & E)]]; rewrite E; simpl fst.
    + exact IH.
    + rewrite (all_trades_append trade self (after_record trade self) eq_refl).
      rewrite length_app. simpl. lia.
    + rewrite (all_trades_append trade self (before_log trade self) eq_refl).
      rewrite length_app. simpl. lia.
Qed.

(** A reachable ledger whose recorded prices are all positive was built
    by calls that returned normally (calls refused for their order
    apart, which write nothing). *)
Lemma reachable_positive_recorded (self : SimpleTradeList) :
  reachable self ->
  Forall (fun t => (0 < traded_price t)%R) (all_trades self) ->
  exists ts, recorded ts self.
Proof.
  induction 1 as [|self trade _ IH].
  - intros _. exists []. constructor.
  - destruct (record_trade_cases trade self)
      as [(t & _ & _ & E)|[(_ & _ & E)|(_ & Hp & E)]]; rewrite E; simpl fst.
    + exact IH.
    + intros Hpos.
      rewrite (all_trades_append trade self (after_record trade self) eq_refl)
        in Hpos.
      apply Forall_app in Hpos as [Hpos _].
      destruct (IH Hpos) as [ts Hrec].
      exists (ts ++ [trade]). eapply recorded_snoc; eassumption.
    + intros Hpos.
      rewrite (all_trades_append trade self (before_log trade self) eq_refl)
        in Hpos.
      apply Forall_app in Hpos as [_ Hpos].
      apply Forall_inv in Hpos. lra.
Qed.

(** On a ledger built by calls that returned normally the aggregates
    agree with the recorded trades. *)
Lemma recorded_aggregates_agree (ts : list Trade) (self : SimpleTradeList) :
  recorded ts self -> aggregates_agree self.
Proof.
  intros Hrec.
  destruct (recorded_aggregates ts self Hrec)
    as (Hc & Ht & Hl & Hpos & _ & _ & Hall).
  unfold aggregates_agree. split; [|split; [|split]].
  - rewrite Hc, (Permutation_length Hall). reflexivity.
  - rewrite Ht. apply sum_R_Permutation, Permutation_map.
    symmetry. exact Hall.
  - rewrite Hall. exact Hpos.
  - rewrite Hl. apply sum_R_Permutation, Permutation_map.
    symmetry. exact Hall.
Qed.

(** *** The failure path of the logarithm *)

(** C10, as the code has it: when the trade passes the ordering check
    and its price is not positive, [record_trade] raises the domain
    error of the logarithm after it has appended the trade and updated
    the count and the price sum; the log-sum and the global timestamp
    keep their values, the ledger differs from the one before the call,
    its aggregates do not agree with the recorded trades, and no
    sequence of calls that return normally produces it. *)
Theorem record_trade_nonpositive_price (trade : Trade)
    (self : SimpleTradeList) :
  in_order trade self -> (traded_price trade <= 0)%R ->
  exists self',
    record_trade trade self = (self', Raise (Builtin ValueError)) /\
    records self' !! symbol (stock trade)
    = Some (trades_of self (symbol (stock trade)) ++ [trade]) /\
    (forall other, other <> symbol (stock trade) ->
                   records self' !! other = records self !! other) /\
    traded_price_count self' = traded_price_count self + 1 /\
    total_traded_price self'
    = (total_traded_price self + traded_price trade)%R /\
    total_traded_price_log self' = total_traded_price_log self /\
    last_timestamp self' = last_timestamp self /\
    self' <> self /\
    ~ aggregates_agree self' /\
    (forall ts, ~ recorded ts self').
Proof.
  intros Hord Hp. exists (before_log trade self).
  assert (Hbad : ~ aggregates_agree (before_log trade self)).
  { intros (_ & _ & Hpos & _).
    rewrite (all_trades_append trade self (before_log trade self) eq_refl)
      in Hpos.
    apply Forall_app in Hpos as [_ Hpos]. apply Forall_inv in Hpos. lra. }
  split; [|split; [|split; [|split; [|split; [|split; [|split;
    [|split; [|split]]]]]]]].
  - rewrite record_trade_in_order by exact Hord.
    rewrite math_log_nonpositive by exact Hp. reflexivity.
  - apply lookup_insert_eq.
  - intros other Hne. simpl. apply lookup_insert_ne. congruence.
  - reflexivity.
  - reflexivity.
  - reflexivity.
  - reflexivity.
  - intros E. apply (f_equal traded_price_count) in E. simpl in E. lia.
  - exact Hbad.
  - intros ts Hrec. apply Hbad.
    eapply recorded_aggregates_agree, Hrec.
Qed.

Lemma free_trade_at_20_in_order : in_order free_trade_at_20 ledger_at_10.
Proof.
  intros t Ht. vm_compute in Ht. injection Ht as <-. simpl. lia.
Qed.

Lemma free_trade_at_20_price : (traded_price free_trade_at_20 <= 0)%R.
Proof. simpl. lra. Qed.

(** A trade at price 0 recorded in order after [trade_at_10]: the call
    raises, and the ledger it leaves counts two trades. *)
Lemma record_trade_nonpositive_price_witness :
  exists self',
    record_trade free_trade_at_20 ledger_at_10
    = (self', Raise (Builtin ValueError)) /\
    records self' !! "TEST1"%string
    = Some [trade_at_10; free_trade_at_20] /\
    traded_price_count self' = 2 /\
    total_traded_price_log self' = total_traded_price_log ledger_at_10.
Proof.
  destruct (record_trade_nonpositive_price free_trade_at_20 ledger_at_10
              free_trade_at_20_in_order free_trade_at_20_price)
    as (self' & E & Hrec & _ & Hcount & _ & Hlog & _).
  exists self'. split; [exact E|]. split; [exact Hrec|].
  split; [exact Hcount|exact Hlog].
Defined.

(** The claim without the ordering condition fails: a trade at price 0
    that is older than the last trade of its symbol raises the ordering
    error, not the domain error, and the ledger is left unchanged. *)
Lemma record_trade_nonpositive_price_counterexample :
  ledger_chronological ledger_at_10 /\
  (traded_price free_trade_at_5 <= 0)%R /\
  record_trade free_trade_at_5 ledger_at_10
  = (ledger_at_10, Raise (AssertionError "TEST1" free_trade_at_5)) /\
  ~ (forall self trade,
       ledger_chronological self -> (traded_price trade <= 0)%R ->
       exists self',
         record_trade trade self = (self', Raise (Builtin ValueError))).
Proof.
  assert (Hc : ledger_chronological ledger_at_10).
  { apply reachable_chronological.
    replace ledger_at_10 with (fst (record_trade trade_at_10 init))
      by (rewrite record_trade_at_10; reflexivity).
    constructor. constructor. }
  assert (Hp : (traded_price free_trade_at_5 <= 0)%R) by (simpl; lra).
  assert (E : record_trade free_trade_at_5 ledger_at_10
              = (ledger_at_10,
                 Raise (AssertionError "TEST1" free_trade_at_5))).
  { apply record_trade_late with trade_at_10; reflexivity. }
  split; [exact Hc|]. split; [exact Hp|]. split; [exact E|].
  intros H. destruct (H ledger_at_10 free_trade_at_5 Hc Hp) as [self' E'].
  rewrite E in E'. discriminate.
Qed.

(** *** [get_last_timestamp] *)

Lemma get_last_timestamp_symbol (self : SimpleTradeList) (sym : string) :
  get_last_timestamp (Some sym) self
  = (self, Ok (timestamp <$> last (trades_of self sym))).
Proof.
  unfold get_last_timestamp, bind, gets, trades_of.
  destruct (records self !! sym) as [[|a l]|]; simpl; try reflexivity.
  unfold getitem_last.
  destruct (last (a :: l)) as [t|] eqn:E; [reflexivity|].
  apply last_None in E. discriminate.
Qed.

(** C9: without a symbol [get_last_timestamp] returns the global
    timestamp, which is [None] when no trade was recorded and the
    latest timestamp of the trades recorded by calls that returned
    normally; with a symbol it returns the timestamp of the last trade
    of that symbol's sequence, and [None] when the symbol is unknown or
    has no trade.  No call raises and no call changes the ledger. *)
Theorem get_last_timestamp_spec (self : SimpleTradeList) :
  get_last_timestamp None self = (self, Ok (last_timestamp self)) /\
  get_last_timestamp None init = (init, Ok None) /\
  (reachable self -> (forall sym, trades_of self sym = []) ->
   get_last_timestamp None self = (self, Ok None)) /\
  (forall ts, recorded ts self ->
     get_last_timestamp None self = (self, Ok (latest ts))) /\
  (forall sym l t,
     records self !! sym = Some (l ++ [t]) ->
     get_last_timestamp (Some sym) self = (self, Ok (Some (timestamp t)))) /\
  (forall sym,
     records self !! sym = None \/ records self !! sym = Some [] ->
     get_last_timestamp (Some sym) self = (self, Ok None)) /\
  (forall sym, exists r, get_last_timestamp (Some sym) self = (self, Ok r)).
Proof.
  split; [reflexivity|]. split; [reflexivity|].
  split; [|split; [|split; [|split]]].
  - intros Hr Hempty. unfold get_last_timestamp, gets.
    rewrite (reachable_empty_last_timestamp self Hr Hempty). reflexivity.
  - intros ts Hrec. unfold get_last_timestamp, gets.
    destruct (recorded_aggregates ts self Hrec) as (_ & _ & _ & _ & -> & _).
    reflexivity.
  - intros sym l t Hk. rewrite get_last_timestamp_symbol.
    unfold trades_of. rewrite Hk. simpl. rewrite last_snoc. reflexivity.
  - intros sym [Hk|Hk]; rewrite get_last_timestamp_symbol;
      unfold trades_of; rewrite Hk; reflexivity.
  - intros sym. eexists. apply get_last_timestamp_symbol.
Qed.

(** On the ledger of the two interleaved trades: the global timestamp
    is 10, the timestamp of the second symbol is 5, and an unknown
    symbol has none. *)
Lemma get_last_timestamp_spec_witness :
  get_last_timestamp None ledger_interleaved
  = (ledger_interleaved, Ok (Some 10)) /\
  get_last_timestamp (Some "TEST2"%string) ledger_interleaved
  = (ledger_interleaved, Ok (Some 5)) /\
  get_last_timestamp (Some "NONE"%string) ledger_interleaved
  = (ledger_interleaved, Ok None).
Proof.
  destruct (get_last_timestamp_spec ledger_interleaved)
    as (_ & _ & _ & Hrec & Hsym & Hnone & _).
  split; [|split].
  - apply (Hrec [trade_at_10; trade2_at_5]). exact recorded_interleaved.
  - apply (Hsym "TEST2"%string [] trade2_at_5). reflexivity.
  - apply Hnone. left. reflexivity.
Defined.

(** After the failed attempt to record a trade at price 0 and
    timestamp 20, the symbol's last timestamp is 20 and the global one
    is still 10. *)
Example partial_ledger_timestamps :
  record_trade free_trade_at_20 ledger_at_10
  = (ledger_partial, Raise (Builtin ValueError)) /\
  get_last_timestamp (Some "TEST1"%string) ledger_partial
  = (ledger_partial, Ok (Some 20)) /\
  get_last_timestamp None ledger_partial
  = (ledger_partial, Ok (Some 10)).
Proof.
  split; [|split; reflexivity].
  rewrite record_trade_in_order by exact free_trade_at_20_in_order.
  rewrite math_log_nonpositive by exact free_trade_at_20_price.
  reflexivity.
Qed.

(** *** The backward scan *)

Lemma in_window_none (now td : Z) (l : list Trade) :
  (forall t, t ∈ l -> timestamp t < now - td) -> in_window now td l = [].
Proof.
  unfold in_window. induction l as [|x l IH]; intros H.
  - reflexivity.
  - rewrite filter_cons_False.
    + apply IH. intros t Ht. apply H. right. exact Ht.
    + specialize (H x (list_elem_of_here x l)). lia.
Qed.

Lemma in_window_snoc (now td : Z) (l : list Trade) (t : Trade) :
  in_window now td (l ++ [t])
  = in_window now td l
    ++ (if decide (now - td <= timestamp t) then [t] else []).
Proof.
  unfold in_window. rewrite filter_app. reflexivity.
Qed.

Lemma range_down_S (n : nat) : range_down (S n) = n :: range_down n.
Proof.
  unfold range_down. rewrite seq_S, rev_app_distr. reflexivity.
Qed.

Lemma sum_traded_snoc (l : list Trade) (t : Trade) :
  sum_traded (l ++ [t])
  = (sum_traded l + traded_price t * IZR (quantity t))%R.
Proof.
  unfold sum_traded. rewrite map_app. simpl (map _ [t]).
  apply sum_R_snoc.
Qed.

Lemma sum_quantity_snoc (l : list Trade) (t : Trade) :
  sum_quantity (l ++ [t]) = sum_quantity l + quantity t.
Proof.
  unfold sum_quantity. rewrite map_app, sum_Z_app. simpl (map _ [t]).
  rewrite sum_Z_cons. change (sum_Z []) with 0. lia.
Qed.

(** The scan over the indices [n - 1, ..., 0] of a chronological
    sequence adds to the accumulators the sums over the trades among
    the first [n] that are inside the window; no index is out of
    range. *)
Lemma scan_back_prefix (trades : list Trade) (now td : Z) :
  chronological trades ->
  forall (n : nat) (total_traded : R) (total_quantity : Z),
    (n <= length trades)%nat ->
    scan_back trades now td (range_down n) total_traded total_quantity
    = Ok ((total_traded
           + sum_traded (in_window now td (take n trades)))%R,
          total_quantity
          + sum_quantity (in_window now td (take n trades))).
Proof.
  intros Hsorted. induction n as [|n IH]; intros acc_t acc_q Hn.
  - rewrite take_0. simpl. f_equal. f_equal.
    + change (sum_traded (in_window now td [])) with 0%R. lra.
    + change (sum_quantity (in_window now td [])) with 0. lia.
  - rewrite range_down_S. simpl scan_back. unfold getitem.
    destruct (lookup_lt_is_Some_2 trades n) as [t Ht]; [lia|].
    rewrite Ht, (take_S_r _ _ _ Ht), in_window_snoc.
    destruct (Z.gtb_spec (now - td) (timestamp t)) as [Hout|Hin].
    + (* break: the trades before index n are older still *)
      rewrite in_window_none.
      * destruct (decide (now - td <= timestamp t)); [lia|].
        simpl. f_equal. f_equal.
        -- change (sum_traded []) with 0%R. lra.
        -- change (sum_quantity []) with 0. lia.
      * intros x Hx. apply elem_of_take in Hx as (i & Hi & Hlt).
        assert (timestamp x <= timestamp t); [|lia].
        apply (Hsorted i n x t); [lia|exact Hi|exact Ht].
    + rewrite IH by lia.
      destruct (decide (now - td <= timestamp t)); [|lia].
      rewrite sum_traded_snoc, sum_quantity_snoc.
      f_equal. f_equal; [lra|lia].
Qed.

Lemma scan_back_all (trades : list Trade) (now td : Z) :
  chronological trades ->
  scan_back trades now td (range_down (length trades)) 0%R 0
  = Ok (naive_window_sums trades now td).
Proof.
  intros Hsorted.
  rewrite (scan_back_prefix trades now td Hsorted) by reflexivity.
  rewrite take_ge by reflexivity.
  unfold naive_window_sums. f_equal. f_equal. lra.
Qed.

(** C6: on a chronological sequence the backward scan of
    [volume_weighted_stock_price], which stops at the first trade older
    than [now - window], ends with the sums that filtering the whole
    sequence for [timestamp >= now - window] gives. *)
Theorem backward_scan_is_filter (trades : list Trade) (now td : Z) :
  chronological trades ->
  scan_back trades now td (range_down (length trades)) 0%R 0
  = Ok (naive_window_sums trades now td).
Proof. apply scan_back_all. Qed.

Lemma record_trade_ok (trade : Trade) (self : SimpleTradeList) :
  in_order trade self -> (0 < traded_price trade)%R ->
  record_trade trade self = (after_record trade self, Ok tt).
Proof.
  intros Hord Hp. rewrite record_trade_in_order by exact Hord.
  rewrite math_log_positive by exact Hp. reflexivity.
Qed.

(** Discharges [record_trade t self = (after_record t self, Ok tt)] on
    closed terms. *)
Ltac record_ok :=
  apply record_trade_ok;
  [ let t := fresh "t" in
    let Ht := fresh "Ht" in
    intros t Ht; vm_compute in Ht;
    first [ discriminate Ht | injection Ht as <-; vm_compute; discriminate ]
  | simpl; lra ].

Lemma recorded_window_ledger : recorded window_trades window_ledger.
Proof.
  apply (recorded_snoc [window_trade1; window_trade2]
           (after_record window_trade2 (after_record window_trade1 init)));
    [|record_ok].
  apply (recorded_snoc [window_trade1] (after_record window_trade1 init));
    [|record_ok].
  apply (recorded_snoc [] init); [constructor|record_ok].
Qed.

Lemma window_trades_chronological : chronological window_trades.
Proof.
  change window_trades with (trades_of window_ledger "TEST1").
  apply ledger_chronological_trades_of.
  eapply reachable_chronological, recorded_reachable, recorded_window_ledger.
Qed.

(** The ledger of the test suite: trades 20, 10 and 5 minutes before
    [now], prices 10, 20 and 30, one share each.  The scan stops at the
    trade of 20 minutes ago and ends with the sums 50 and 2 of the
    other two, as the filter does. *)
Lemma backward_scan_is_filter_witness :
  scan_back window_trades test_now default_trade_timedelta
    (range_down (length window_trades)) 0%R 0
  = Ok (naive_window_sums window_trades test_now default_trade_timedelta)
  /\ in_window test_now default_trade_timedelta window_trades
     = [window_trade2; window_trade3].
Proof.
  split.
  - apply (backward_scan_is_filter window_trades test_now
             default_trade_timedelta).
    exact window_trades_chronological.
  - reflexivity.
Defined.

(** *** [volume_weighted_stock_price] *)

Lemma truthy_trades_of (self : SimpleTradeList) (sym : string) :
  truthy (records self !! sym)
  = negb (bool_decide (trades_of self sym = [])).
Proof.
  unfold trades_of. destruct (records self !! sym) as [[|a l]|]; reflexivity.
Qed.

Lemma volume_weighted_no_trades (self : SimpleTradeList) (clock : Z)
    (sym : string) (now td : option Z) :
  trades_of self sym = [] ->
  volume_weighted_stock_price clock sym now td self = (self, Ok 0%R).
Proof.
  intros Hnil. unfold volume_weighted_stock_price, bind, gets.
  rewrite truthy_trades_of, Hnil. reflexivity.
Qed.

(** On a chronological sequence the method returns the volume-weighted
    price of the specification, without raising and without writing. *)
Lemma volume_weighted_chronological (self : SimpleTradeList) (clock : Z)
    (sym : string) (now td : option Z) :
  chronological (trades_of self sym) ->
  volume_weighted_stock_price clock sym now td self
  = (self, Ok (spec_volume_weighted (trades_of self sym)
                 (default clock now)
                 (default default_trade_timedelta td))).
Proof.
  intros Hsorted.
  destruct (decide (trades_of self sym = [])) as [Hnil|Hne].
  - rewrite volume_weighted_no_trades by exact Hnil.
    rewrite Hnil. reflexivity.
  - unfold volume_weighted_stock_price, bind, gets.
    rewrite truthy_trades_of, bool_decide_eq_false_2 by exact Hne.
    simpl negb. cbv iota zeta.
    fold (trades_of self sym).
    change (match now with Some now0 => now0 | None => clock end)
      with (default clock now).
    rewrite scan_back_all by exact Hsorted.
    unfold naive_window_sums, spec_volume_weighted. simpl.
    destruct (Z.eqb_spec
                (sum_quantity
                   (in_window (default clock now)
                      (default default_trade_timedelta td)
                      (trades_of self sym)))
                0) as [Hz|Hnz].
    + reflexivity.
    + unfold truediv.
      destruct (Req_dec_T _ 0) as [E|_]; [|reflexivity].
      apply eq_IZR_R0 in E. contradiction.
Qed.

(** C2: in every state of the ledger, [volume_weighted_stock_price]
    returns 0 for a symbol without trades, 0 when the quantities of the
    symbol's trades with [timestamp >= now - window] add up to 0, and
    otherwise the sum of [traded_price * quantity] over these trades
    divided by the sum of their quantities; the window is 15 minutes
    when it is not given, and [now] is the clock when it is not
    given. *)
Theorem volume_weighted_stock_price_spec (self : SimpleTradeList)
    (clock : Z) (sym : string) (now td : option Z) :
  reachable self ->
  (trades_of self sym = [] ->
   volume_weighted_stock_price clock sym now td self = (self, Ok 0%R)) /\
  (sum_quantity
     (in_window (default clock now) (default default_trade_timedelta td)
        (trades_of self sym)) = 0 ->
   volume_weighted_stock_price clock sym now td self = (self, Ok 0%R)) /\
  (trades_of self sym <> [] ->
   sum_quantity
     (in_window (default clock now) (default default_trade_timedelta td)
        (trades_of self sym)) <> 0 ->
   volume_weighted_stock_price clock sym now td self
   = (self,
      Ok (sum_traded
            (in_window (default clock now)
               (default default_trade_timedelta td) (trades_of self sym))
          / IZR (sum_quantity
                   (in_window (default clock now)
                      (default default_trade_timedelta td)
                      (trades_of self sym))))%R)).
Proof.
  intros Hr.
  assert (Hsorted : chronological (trades_of self sym)).
  { apply ledger_chronological_trades_of, reachable_chronological, Hr. }
  split; [apply volume_weighted_no_trades|]. split.
  - intros Hz. rewrite volume_weighted_chronological by exact Hsorted.
    unfold spec_volume_weighted. rewrite Hz. reflexivity.
  - intros _ Hnz. rewrite volume_weighted_chronological by exact Hsorted.
    unfold spec_volume_weighted.
    destruct (Z.eqb_spec
                (sum_quantity
                   (in_window (default clock now)
                      (default default_trade_timedelta td)
                      (trades_of self sym)))
                0); [contradiction|reflexivity].
Qed.

(** The third ledger of the test suite, window left to its default of
    15 minutes: the trade of 20 minutes ago is left out and the price is
    (20 + 30) / 2 = 25; an unknown symbol gives 0. *)
Lemma volume_weighted_stock_price_spec_witness :
  volume_weighted_stock_price 0 "TEST1" (Some test_now) None window_ledger
  = (window_ledger, Ok ((0 + 20 * 1 + 30 * 1) / 2)%R) /\
  ((0 + 20 * 1 + 30 * 1) / 2 = 25)%R /\
  volume_weighted_stock_price 0 "NONE" (Some test_now) None window_ledger
  = (window_ledger, Ok 0%R).
Proof.
  assert (Hr : reachable window_ledger).
  { eapply recorded_reachable, recorded_window_ledger. }
  split; [|split].
  - destruct (volume_weighted_stock_price_spec window_ledger 0 "TEST1"
                (Some test_now) None Hr)
      as (_ & _ & H).
    rewrite H.
    + f_equal. f_equal.
      change (in_window (default 0 (Some test_now))
                (default default_trade_timedelta None)
                (trades_of window_ledger "TEST1"))
        with [window_trade2; window_trade3].
      unfold sum_traded, sum_quantity, sum_R, sum_Z. simpl.
      change (IZR (1 + (1 + 0))) with 2%R. lra.
    + discriminate.
    + vm_compute. discriminate.
  - lra.
  - destruct (volume_weighted_stock_price_spec window_ledger 0 "NONE"
                (Some test_now) None Hr)
      as (H & _).
    apply H. reflexivity.
Defined.

Lemma recorded_equal_ledger : recorded equal_trades equal_ledger.
Proof.
  eapply (recorded_snoc [_; _]); [|record_ok].
  eapply (recorded_snoc [_]); [|record_ok].
  eapply (recorded_snoc []); [constructor|record_ok].
Qed.

Lemma recorded_weighted_ledger : recorded weighted_trades weighted_ledger.
Proof.
  eapply (recorded_snoc [_; _]); [|record_ok].
  eapply (recorded_snoc [_]); [|record_ok].
  eapply (recorded_snoc []); [constructor|record_ok].
Qed.

(** Equal quantities: the price is the plain average, 3. *)
Example volume_weighted_equal_quantities :
  volume_weighted_stock_price 0 "TEST1" (Some test_now) None equal_ledger
  = (equal_ledger, Ok ((0 + 4 * 1 + 3 * 1 + 2 * 1) / 3)%R) /\
  ((0 + 4 * 1 + 3 * 1 + 2 * 1) / 3 = 3)%R.
Proof.
  split; [|lra].
  rewrite volume_weighted_chronological.
  - f_equal. f_equal. unfold spec_volume_weighted.
    change (in_window (default 0 (Some test_now))
              (default default_trade_timedelta None)
              (trades_of equal_ledger "TEST1"))
      with equal_trades.
    unfold sum_traded, sum_quantity, sum_R, sum_Z. simpl.
    change (IZR (1 + (1 + (1 + 0)))) with 3%R. lra.
  - apply ledger_chronological_trades_of.
    eapply reachable_chronological, recorded_reachable, recorded_equal_ledger.
Qed.

(** Quantities 2, 3, 4 at prices 2, 5, 6: the price is 43/9, about
    4.77. *)
Example volume_weighted_quantities :
  volume_weighted_stock_price 0 "TEST1" (Some test_now) None
    weighted_ledger
  = (weighted_ledger, Ok ((0 + 6 * 4 + 5 * 3 + 2 * 2) / 9)%R) /\
  (4.77 < (0 + 6 * 4 + 5 * 3 + 2 * 2) / 9 < 4.78)%R.
Proof.
  split; [|lra].
  rewrite volume_weighted_chronological.
  - f_equal. f_equal. unfold spec_volume_weighted.
    change (in_window (default 0 (Some test_now))
              (default default_trade_timedelta None)
              (trades_of weighted_ledger "TEST1"))
      with weighted_trades.
    unfold sum_traded, sum_quantity, sum_R, sum_Z. simpl.
    change (IZR (2 + (3 + (4 + 0)))) with 9%R. lra.
  - apply ledger_chronological_trades_of.
    eapply reachable_chronological, recorded_reachable,
      recorded_weighted_ledger.
Qed.

(** Without the order the scan and the filter differ: the scan stops at
    once on the old trade that comes last, the filter still finds the
    recent trade before it. *)
Example backward_scan_needs_order :
  scan_back shuffled_trades test_now default_trade_timedelta
    (range_down (length shuffled_trades)) 0%R 0
  = Ok (0%R, 0) /\
  naive_window_sums shuffled_trades test_now default_trade_timedelta
  = ((30 * 1 + 0)%R, 1).
Proof. split; reflexivity. Qed.

(** *** [geometric_mean] *)

(** In any state the method returns without raising and without
    writing: the division is guarded by the test on the count. *)
Lemma geometric_mean_run (self : SimpleTradeList) :
  geometric_mean self
  = (self,
     Ok (if traded_price_count self <? 1 then 0%R
         else exp (total_traded_price_log self
                   / IZR (traded_price_count self)))).
Proof.
  unfold geometric_mean, bind, gets.
  destruct (Z.ltb_spec (traded_price_count self) 1) as [Hlt|Hge].
  - reflexivity.
  - unfold truediv.
    destruct (Req_dec_T (IZR (traded_price_count self)) 0) as [E|_].
    + apply eq_IZR_R0 in E. lia.
    + reflexivity.
Qed.

Lemma exp_sum_ln (ps : list R) :
  Forall (fun p => (0 < p)%R) ps ->
  exp (sum_R (map ln ps)) = prod_R ps.
Proof.
  induction 1 as [|p ps Hp _ IH].
  - apply exp_0.
  - simpl map. rewrite sum_R_cons, prod_R_cons, exp_plus, IH.
    rewrite exp_ln by exact Hp. reflexivity.
Qed.

Lemma exp_mean_pow (x : R) (n : nat) :
  (0 < n)%nat -> (exp (x / INR n) ^ n)%R = exp x.
Proof.
  intros Hn.
  assert (Hnz : INR n <> 0%R) by (apply not_0_INR; lia).
  rewrite <- (exp_ln (exp (x / INR n) ^ n)) by apply pow_lt, exp_pos.
  f_equal. rewrite ln_pow by apply exp_pos. rewrite ln_exp.
  field. exact Hnz.
Qed.

(** The positive [n]-th root is unique. *)
Lemma positive_root_unique (a b : R) (n : nat) :
  (0 < n)%nat -> (0 < a)%R -> (0 < b)%R -> (a ^ n = b ^ n)%R -> a = b.
Proof.
  intros Hn Ha Hb E.
  assert (Hnz : INR n <> 0%R) by (apply not_0_INR; lia).
  apply ln_inv; [exact Ha|exact Hb|].
  apply (f_equal ln) in E. rewrite !ln_pow in E by assumption.
  apply Rmult_eq_reg_l with (INR n); assumption.
Qed.

(** On a ledger built by calls that returned normally, the exponential
    of the mean logarithm is the positive [n]-th root of the product of
    the recorded prices. *)
Lemma recorded_mean_root (ts : list Trade) (self : SimpleTradeList) :
  recorded ts self -> ts <> [] ->
  (exp (total_traded_price_log self / IZR (traded_price_count self))
   ^ length ts)%R
  = prod_R (map traded_price ts).
Proof.
  intros Hrec Hne.
  destruct (recorded_aggregates ts self Hrec) as (Hc & _ & Hl & Hpos & _).
  rewrite Hc, Hl, <- INR_IZR_INZ.
  rewrite exp_mean_pow by (destruct ts; [congruence|simpl; lia]).
  rewrite <- exp_sum_ln.
  - rewrite map_map. reflexivity.
  - rewrite Forall_forall in Hpos. apply Forall_forall.
    intros p Hp. apply list_elem_of_In, in_map_iff in Hp as (t & <- & Ht).
    apply Hpos, list_elem_of_In, Ht.
Qed.

Lemma recorded_count_positive (ts : list Trade) (self : SimpleTradeList) :
  recorded ts self -> ts <> [] -> (traded_price_count self <? 1) = false.
Proof.
  intros Hrec Hne.
  destruct (recorded_aggregates ts self Hrec) as (Hc & _).
  apply Z.ltb_ge. rewrite Hc. destruct ts; [congruence|simpl; lia].
Qed.

Lemma all_trades_nonempty_count (self : SimpleTradeList) :
  reachable self -> all_trades self <> [] ->
  (traded_price_count self <? 1) = false.
Proof.
  intros Hr Hne. apply Z.ltb_ge. rewrite (reachable_count self Hr).
  destruct (all_trades self); [congruence|simpl; lia].
Qed.

(** The geometric mean of a reachable ledger with positive prices is
    the positive root of the product of its recorded prices. *)
Lemma reachable_mean_root (self : SimpleTradeList) :
  reachable self ->
  Forall (fun t => (0 < traded_price t)%R) (all_trades self) ->
  all_trades self <> [] ->
  (exp (total_traded_price_log self / IZR (traded_price_count self))
   ^ length (all_trades self))%R
  = prod_R (map traded_price (all_trades self)).
Proof.
  intros Hr Hpos Hne.
  destruct (reachable_positive_recorded self Hr Hpos) as [ts Hrec].
  pose proof (recorded_aggregates ts self Hrec) as (_ & _ & _ & _ & _ & _ & Hall).
  rewrite (Permutation_length Hall).
  rewrite (prod_R_Permutation _ (map traded_price ts))
    by apply Permutation_map, Hall.
  apply recorded_mean_root; [exact Hrec|].
  intros ->. apply Permutation_nil_r in Hall. contradiction.
Qed.

(** C1, as the code has it: in every state of the ledger
    [geometric_mean] returns 0 when no
    trade was recorded and otherwise the exponential of the log-sum
    over the count; when the recorded prices are positive, as the
    logarithm requires, this is the positive [n]-th root of the product
    of the [n] prices recorded across all symbols, so that two ledgers
    whose recorded prices are the same up to order return the same
    mean, whatever the symbols and the order of recording. *)
Theorem geometric_mean_spec (self : SimpleTradeList) :
  reachable self ->
  (all_trades self = [] -> geometric_mean self = (self, Ok 0%R)) /\
  (all_trades self <> [] ->
   geometric_mean self
   = (self, Ok (exp (total_traded_price_log self
                     / IZR (traded_price_count self))))) /\
  (Forall (fun t => (0 < traded_price t)%R) (all_trades self) ->
   all_trades self <> [] ->
   exists g,
     geometric_mean self = (self, Ok g) /\
     (0 < g)%R /\
     (g ^ length (all_trades self))%R
     = prod_R (map traded_price (all_trades self))) /\
  (forall self',
     reachable self' ->
     Forall (fun t => (0 < traded_price t)%R) (all_trades self) ->
     Forall (fun t => (0 < traded_price t)%R) (all_trades self') ->
     map traded_price (all_trades self')
     ≡ₚ map traded_price (all_trades self) ->
     snd (geometric_mean self') = snd (geometric_mean self)).
Proof.
  intros Hr.
  assert (Hrun : all_trades self <> [] ->
                 geometric_mean self
                 = (self, Ok (exp (total_traded_price_log self
                                   / IZR (traded_price_count self))))).
  { intros Hne. rewrite geometric_mean_run.
    rewrite (all_trades_nonempty_count self Hr Hne). reflexivity. }
  split; [|split; [exact Hrun|split]].
  - intros Hnil. rewrite geometric_mean_run, (reachable_count self Hr), Hnil.
    reflexivity.
  - intros Hpos Hne. eexists. split; [apply Hrun, Hne|]. split.
    + apply exp_pos.
    + apply reachable_mean_root; assumption.
  - intros self' Hr' Hpos Hpos' Hperm.
    assert (Hlen : length (all_trades self') = length (all_trades self)).
    { apply Permutation_length in Hperm. rewrite !length_map in Hperm.
      exact Hperm. }
    destruct (decide (all_trades self = [])) as [Hnil|Hne].
    + assert (Hnil' : all_trades self' = []).
      { apply nil_length_inv. rewrite Hlen, Hnil. reflexivity. }
      rewrite !geometric_mean_run.
      rewrite (reachable_count self Hr), (reachable_count self' Hr').
      rewrite Hnil, Hnil'. reflexivity.
    + assert (Hne' : all_trades self' <> []).
      { intros E. apply Hne, nil_length_inv. rewrite <- Hlen, E. reflexivity. }
      rewrite (Hrun Hne), geometric_mean_run.
      rewrite (all_trades_nonempty_count self' Hr' Hne'). simpl. f_equal.
      assert (Hn : (0 < length (all_trades self))%nat).
      { destruct (all_trades self); [congruence|simpl; lia]. }
      apply (positive_root_unique _ _ (length (all_trades self)) Hn);
        [apply exp_pos..|].
      rewrite reachable_mean_root by assumption.
      rewrite <- Hlen.
      rewrite reachable_mean_root by assumption.
      apply prod_R_Permutation, Hperm.
Qed.

Lemma recorded_mean_ledger1 : recorded mean_trades1 mean_ledger1.
Proof.
  eapply (recorded_snoc [_]); [|record_ok].
  eapply (recorded_snoc []); [constructor|record_ok].
Qed.

Lemma recorded_mean_ledger2 : recorded mean_trades2 mean_ledger2.
Proof.
  eapply (recorded_snoc [_; _]); [|record_ok].
  eapply (recorded_snoc [_]); [|record_ok].
  eapply (recorded_snoc []); [constructor|record_ok].
Qed.

(** The first ledger of the test suite: the prices 2 and 8, recorded
    for two different stocks, have geometric mean 4; the empty ledger
    has 0. *)
Lemma mean_ledger1_positive :
  Forall (fun t => (0 < traded_price t)%R) (all_trades mean_ledger1).
Proof.
  pose proof (recorded_aggregates _ _ recorded_mean_ledger1)
    as (_ & _ & _ & Hpos & _ & _ & Hall).
  rewrite Hall. exact Hpos.
Qed.

Lemma mean_ledger1_prices :
  map traded_price (all_trades mean_ledger1) ≡ₚ [2%R; 8%R].
Proof.
  pose proof (recorded_aggregates _ _ recorded_mean_ledger1)
    as (_ & _ & _ & _ & _ & _ & Hall).
  rewrite Hall. reflexivity.
Qed.

Lemma geometric_mean_spec_witness :
  geometric_mean mean_ledger1 = (mean_ledger1, Ok 4%R) /\
  geometric_mean init = (init, Ok 0%R).
Proof.
  split.
  - destruct (geometric_mean_spec mean_ledger1
                (recorded_reachable _ _ recorded_mean_ledger1))
      as (_ & _ & H & _).
    destruct (H mean_ledger1_positive) as (g & E & Hpos & Hroot).
    { intros Hnil. pose proof mean_ledger1_prices as Hp.
      rewrite Hnil in Hp. apply Permutation_nil in Hp. discriminate. }
    rewrite E. do 2 f_equal.
    rewrite (prod_R_Permutation _ _ mean_ledger1_prices) in Hroot.
    rewrite <- (length_map traded_price) in Hroot.
    rewrite (Permutation_length mean_ledger1_prices) in Hroot.
    apply (positive_root_unique g 4 2); [lia|exact Hpos|lra|].
    simpl length in Hroot. rewrite Hroot. unfold prod_R. simpl. lra.
  - destruct (geometric_mean_spec init reachable_init) as (H & _).
    apply H. reflexivity.
Defined.

Lemma ledger_partial_reachable : reachable ledger_partial.
Proof.
  replace ledger_partial
    with (fst (record_trade free_trade_at_20
                 (fst (record_trade trade_at_10 init)))).
  - constructor. constructor. constructor.
  - rewrite record_trade_at_10. simpl fst.
    rewrite record_trade_in_order by exact free_trade_at_20_in_order.
    rewrite math_log_nonpositive by exact free_trade_at_20_price.
    reflexivity.
Qed.

Lemma ledger_partial_prices :
  map traded_price (all_trades ledger_partial) ≡ₚ [2%R; 0%R].
Proof.
  rewrite (all_trades_append free_trade_at_20 ledger_at_10 ledger_partial
             eq_refl).
  rewrite (all_trades_append trade_at_10 init ledger_at_10 eq_refl).
  reflexivity.
Qed.

Lemma ledger_partial_mean :
  geometric_mean ledger_partial
  = (ledger_partial, Ok (exp ((0 + ln 2) / 2))).
Proof.
  rewrite geometric_mean_run. reflexivity.
Qed.

(** Without the condition on the prices the claim fails.  On the
    ledger that holds a trade at price 2 and, after the call recording
    it raised in the logarithm, a trade at price 0, [geometric_mean]
    returns the square root of 2: not the root of the product of the
    two prices held, which is 0, and not the one price whose call
    returned, which is 2. *)
Lemma geometric_mean_spec_counterexample :
  reachable ledger_partial /\
  map traded_price (all_trades ledger_partial) ≡ₚ [2%R; 0%R] /\
  (exists g,
     geometric_mean ledger_partial = (ledger_partial, Ok g) /\
     (0 < g)%R /\ (g ^ 2 = 2)%R /\
     (g ^ 2)%R <> prod_R [2%R; 0%R] /\ g <> 2%R) /\
  ~ (forall self,
       reachable self -> all_trades self <> [] ->
       exists g,
         geometric_mean self = (self, Ok g) /\
         (g ^ length (all_trades self))%R
         = prod_R (map traded_price (all_trades self))).
Proof.
  assert (Hsq : (exp ((0 + ln 2) / 2) ^ 2 = 2)%R).
  { replace 2%R with (INR 2) at 2 by (simpl; lra).
    rewrite exp_mean_pow by lia. rewrite Rplus_0_l. apply exp_ln. lra. }
  assert (Hprod : prod_R [2%R; 0%R] = 0%R).
  { unfold prod_R. simpl. lra. }
  split; [exact ledger_partial_reachable|].
  split; [exact ledger_partial_prices|]. split.
  - exists (exp ((0 + ln 2) / 2)).
    split; [exact ledger_partial_mean|]. split; [apply exp_pos|].
    split; [exact Hsq|]. split.
    + rewrite Hsq, Hprod. lra.
    + intros E. rewrite E in Hsq. lra.
  - intros H.
    destruct (H ledger_partial ledger_partial_reachable) as (g & Hg & Hroot).
    + intros E. pose proof ledger_partial_prices as Hp. rewrite E in Hp.
      apply Permutation_nil in Hp. discriminate.
    + rewrite ledger_partial_mean in Hg. injection Hg as <-.
      rewrite (prod_R_Permutation _ _ ledger_partial_prices) in Hroot.
      rewrite <- (length_map traded_price) in Hroot.
      rewrite (Permutation_length ledger_partial_prices) in Hroot.
      change (length [2%R; 0%R]) with 2%nat in Hroot.
      rewrite Hsq, Hprod in Hroot. lra.
Qed.

(** The second ledger of the test suite: the prices 4, 1 and 1/32 have
    geometric mean 1/2. *)
Example geometric_mean_ledger2 :
  geometric_mean mean_ledger2 = (mean_ledger2, Ok (1 / 2)%R).
Proof.
  rewrite geometric_mean_run.
  rewrite (recorded_count_positive _ _ recorded_mean_ledger2) by discriminate.
  do 2 f_equal.
  apply (positive_root_unique _ _ 3); [lia|apply exp_pos|lra|].
  pose proof (recorded_mean_root mean_trades2 mean_ledger2
                recorded_mean_ledger2) as Hroot.
  change (length mean_trades2) with 3%nat in Hroot.
  rewrite Hroot by discriminate.
  unfold prod_R. simpl. lra.
Qed.

End trade_facts.

(** ** Further properties of stock.py *)

Module stock_extra.
Import py stock stock_facts.
Local Open Scope R_scope.

Lemma spec_dividend_yield_nonzero (s : StockABC) (price : R) :
  price <> 0 -> spec_dividend s <> 0 -> spec_dividend_yield s price <> 0.
Proof.
  intros Hp Hd. unfold spec_dividend_yield. intros E.
  apply Hd. apply (Rmult_eq_reg_r (/ price)).
  - rewrite Rmult_0_l. exact E.
  - apply Rinv_neq_0_compat, Hp.
Qed.

Lemma pe_ratio_value (s : StockABC) (price : R) :
  price <> 0 -> spec_dividend s <> 0 ->
  pe_ratio s price = Ok (price * price / spec_dividend s).
Proof.
  intros Hp Hd.
  rewrite (pe_ratio_nonzero_yield s price (spec_dividend_yield s price)).
  - f_equal. unfold spec_dividend_yield. field. split; assumption.
  - apply dividend_yield_nonzero_price, Hp.
  - apply spec_dividend_yield_nonzero; assumption.
Qed.



(** X2: [pe_ratio] returns 0 exactly when the price is 0 or the
    dividend of the instrument is 0. *)
Theorem pe_ratio_zero_iff (s : StockABC) (price : R) :
  pe_ratio s price = Ok 0 <-> price = 0 \/ spec_dividend s = 0.
Proof.
  split.
  - intros H.
    destruct (Req_dec_T price 0) as [Hp|Hp]; [left; exact Hp|].
    destruct (Req_dec_T (spec_dividend s) 0) as [Hd|Hd]; [right; exact Hd|].
    rewrite pe_ratio_value in H by assumption.
    injection H as H. exfalso.
    assert (price * price <> 0) by (apply Rmult_integral_contrapositive; auto).
    apply H0. apply (Rmult_eq_reg_r (/ spec_dividend s)).
    + rewrite Rmult_0_l. exact H.
    + apply Rinv_neq_0_compat, Hd.
  - intros [->|Hd].
    + apply pe_ratio_zero_yield, dividend_yield_zero_price.
    + apply pe_ratio_zero_yield.
      destruct (Req_dec_T price 0) as [->|Hp].
      * apply dividend_yield_zero_price.
      * rewrite dividend_yield_nonzero_price by exact Hp.
        unfold spec_dividend_yield. rewrite Hd.
        unfold Rdiv. rewrite Rmult_0_l. reflexivity.
Qed.

Lemma StockType_call_value (m : StockType) :
  StockType_call (TagStr (StockType_value m)) = Ok m.
Proof. destruct m; reflexivity. Qed.

Lemma StockType_call_Ok (tag : stock_tag) (m : StockType) :
  StockType_call tag = Ok m ->
  tag = TagMember m \/ tag = TagStr (StockType_value m).
Proof.
  destruct tag as [m'|label]; simpl.
  - intros [= ->]. left. reflexivity.
  - destruct (String.eqb_spec label "Common") as [->|_].
    + intros [= <-]. right. reflexivity.
    + destruct (String.eqb_spec label "Preferred") as [->|_].
      * intros [= <-]. right. reflexivity.
      * discriminate.
Qed.

(** An instrument without dividend has ratio 0 at any price. *)
Lemma pe_ratio_zero_iff_witness : pe_ratio test_zero_dividend 7 = Ok 0.
Proof.
  apply (pe_ratio_zero_iff test_zero_dividend 7). right. reflexivity.
Defined.

(** X3: [StockFactory] returns an instrument exactly when the tag is a
    member of [StockType] or the value of one and [fixed_dividend] is
    given for the preferred class and only for it; the instrument then
    has the class of the tag and the arguments as its attributes, and
    the value ['Common'] or ['Preferred'] builds the same instrument as
    the member it names. *)
Theorem StockFactory_round_trip (tag : stock_tag) (sym : string)
    (ld : R) (fd : option R) (pv : R) :
  (forall s,
     StockFactory tag sym ld fd pv = Ok s <->
     (tag = TagMember (class_of s) \/
      tag = TagStr (StockType_value (class_of s))) /\
     symbol s = sym /\ last_dividend s = ld /\
     fixed_dividend s = fd /\ par_value s = pv) /\
  (forall m,
     StockFactory (TagStr (StockType_value m)) sym ld fd pv
     = StockFactory (TagMember m) sym ld fd pv).
Proof.
  split.
  - intros s. split.
    + unfold StockFactory. intros H.
      destruct (StockType_call tag) as [m|e] eqn:Hm; [|discriminate].
      apply StockType_call_Ok in Hm.
      destruct m, fd as [fd|]; try discriminate;
        injection H as <-; simpl; auto.
    + intros (Htag & <- & <- & <- & <-).
      assert (Hm : StockType_call tag = Ok (class_of s)).
      { destruct Htag as [->| ->];
          [reflexivity|apply StockType_call_value]. }
      unfold StockFactory. rewrite Hm. destruct s; reflexivity.
  - intros m. unfold StockFactory. rewrite StockType_call_value.
    reflexivity.
Qed.

(** The doctest of the factory: the value ['Common'] builds a common
    stock. *)
Lemma StockFactory_round_trip_witness :
  StockFactory (TagStr "Common") "POP" 8 None 100
  = Ok (CommonStock "POP" 8 100).
Proof.
  apply (proj1 (StockFactory_round_trip (TagStr "Common") "POP" 8 None 100)
           (CommonStock "POP" 8 100)).
  repeat split. right. reflexivity.
Defined.

(** X4: a string that is neither ['Common'] nor ['Preferred'], in this
    exact spelling, makes [StockFactory] raise the error of the
    enumeration, whatever the other arguments, also when they fit no
    class. *)
Theorem StockFactory_invalid_tag (label sym : string)
    (ld : R) (fd : option R) (pv : R) :
  label <> "Common"%string -> label <> "Preferred"%string ->
  StockFactory (TagStr label) sym ld fd pv
  = Raise (NotAValidStockType label).
Proof.
  intros H1 H2. unfold StockFactory, StockType_call. simpl.
  destruct (String.eqb_spec label "Common"); [contradiction|].
  destruct (String.eqb_spec label "Preferred"); [contradiction|].
  reflexivity.
Qed.

(** The tag of the test suite, and a value in lower case. *)
Lemma StockFactory_invalid_tag_witness :
  StockFactory (TagStr "_") "_" 8 (Some 2) 10
  = Raise (NotAValidStockType "_") /\
  StockFactory (TagStr "common") "POP" 8 None 100
  = Raise (NotAValidStockType "common").
Proof.
  split.
  - apply (StockFactory_invalid_tag "_" "_" 8 (Some 2) 10); discriminate.
  - apply (StockFactory_invalid_tag "common" "POP" 8 None 100);
      discriminate.
Defined.

End stock_extra.

(** ** Further properties of trade.py *)

Module trade_extra.
Import py stock trade trade_facts.
Local Open Scope Z_scope.

(** *** Construction of a trade *)

(** X5: [Trade] accepts a member of [TradeIndicator] or one of the
    values ['Buy'] and ['Sell'], and raises the error of the
    enumeration for any other string; the trade built keeps the
    arguments, and its indicator is the member whose value was given. *)
Theorem Trade_init_round_trip (st : StockABC) (ts q : Z)
    (ind : indicator_arg) (p : R) :
  (forall t,
     Trade_init st ts q ind p = Ok t <->
     (ind = IndMember (indicator t) \/
      ind = IndStr (TradeIndicator_value (indicator t))) /\
     trade.stock t = st /\ timestamp t = ts /\ quantity t = q /\
     traded_price t = p) /\
  (forall label,
     ind = IndStr label ->
     label <> "Buy"%string -> label <> "Sell"%string ->
     Trade_init st ts q ind p = Raise (NotAValidTradeIndicator label)).
Proof.
  split.
  - intros t. unfold Trade_init. split.
    + destruct ind as [m|label]; simpl.
      * intros [= <-]. simpl. auto 6.
      * destruct (String.eqb_spec label "Buy") as [->|_];
          [intros [= <-]; simpl; auto 6|].
        destruct (String.eqb_spec label "Sell") as [->|_];
          [intros [= <-]; simpl; auto 6|discriminate].
    + intros (Hind & <- & <- & <- & <-).
      destruct t as [st' ts' q' i p']. simpl in *.
      destruct Hind as [->| ->]; [reflexivity|].
      destruct i; reflexivity.
  - intros label -> H1 H2. unfold Trade_init. simpl.
    destruct (String.eqb_spec label "Buy"); [contradiction|].
    destruct (String.eqb_spec label "Sell"); [contradiction|].
    reflexivity.
Qed.

(** The trades of the test suite: ['Buy'] gives the member [BUY], and
    ['__BAD_INDICATOR__'] is refused. *)
Lemma Trade_init_round_trip_witness :
  Trade_init stock1 10 1 (IndStr "Buy") 2 = Ok trade_at_10 /\
  Trade_init stock1 10 1 (IndStr "__BAD_INDICATOR__") 2
  = Raise (NotAValidTradeIndicator "__BAD_INDICATOR__").
Proof.
  split.
  - apply (proj1 (Trade_init_round_trip stock1 10 1 (IndStr "Buy") 2)
             trade_at_10).
    repeat split. right. reflexivity.
  - apply (proj2 (Trade_init_round_trip stock1 10 1
                    (IndStr "__BAD_INDICATOR__") 2)
             "__BAD_INDICATOR__"); [reflexivity|discriminate..].
Defined.

(** *** The outcome of [record_trade] *)

Lemma not_in_order (trade : Trade) (self : SimpleTradeList) :
  ~ in_order trade self <->
  exists t, last (trades_of self (symbol (trade.stock trade))) = Some t /\
            timestamp trade < timestamp t.
Proof.
  unfold in_order. split.
  - intros H.
    destruct (last (trades_of self (symbol (trade.stock trade))))
      as [t|] eqn:E.
    + exists t. split; [reflexivity|].
      destruct (Z.lt_ge_cases (timestamp trade) (timestamp t)); [assumption|].
      exfalso. apply H. intros t' [= <-]. lia.
    + exfalso. apply H. intros t' Ht'. discriminate.
  - intros (t & Hl & Hlt) H. specialize (H t Hl). lia.
Qed.

(** X6: [record_trade] returns normally exactly when the trade is not
    older than the last trade of its symbol and its price is positive;
    it raises the ordering error exactly when the trade is older, and
    the domain error of the logarithm exactly when the trade is in
    order and its price is not positive. *)
Theorem record_trade_outcome (trade : Trade) (self : SimpleTradeList) :
  (snd (record_trade trade self) = Ok tt <->
   in_order trade self /\ (0 < traded_price trade)%R) /\
  (snd (record_trade trade self)
   = Raise (AssertionError (symbol (trade.stock trade)) trade) <->
   ~ in_order trade self) /\
  (snd (record_trade trade self) = Raise (Builtin ValueError) <->
   in_order trade self /\ (traded_price trade <= 0)%R).
Proof.
  destruct (record_trade_cases trade self)
    as [(t & Hl & Hlt & E)|[(Ho & Hp & E)|(Ho & Hp & E)]]; rewrite E; simpl.
  - assert (Hno : ~ in_order trade self).
    { apply not_in_order. exists t. auto. }
    split; [|split]; split; try discriminate; try tauto.
  - split; [|split]; split; try discriminate; try tauto.
    intros [_ H]. lra.
  - split; [|split]; split; try discriminate; try tauto.
    intros [_ H]. lra.
Qed.

(** The same timestamp as the last trade is in order: a second trade of
    the symbol at timestamp 10 is recorded. *)
Lemma record_trade_outcome_witness :
  snd (record_trade trade_at_10_again ledger_at_10) = Ok tt.
Proof.
  apply (proj1 (record_trade_outcome trade_at_10_again ledger_at_10)).
  split.
  - intros t Ht. vm_compute in Ht. injection Ht as <-. simpl. lia.
  - simpl. lra.
Defined.

(** *** Sequences of calls *)

(** The records after a call: unchanged when the ordering error is
    raised, the trade appended under its symbol otherwise. *)
Lemma record_trade_records (trade : Trade) (self : SimpleTradeList) :
  fst (record_trade trade self) = self \/
  records (fst (record_trade trade self))
  = <[symbol (trade.stock trade) :=
        trades_of self (symbol (trade.stock trade)) ++ [trade]]>
      (records self).
Proof.
  destruct (record_trade_cases trade self)
    as [(t & _ & _ & E)|[(_ & _ & E)|(_ & _ & E)]]; rewrite E; simpl; auto.
Qed.

Lemma trades_of_insert (self self' : SimpleTradeList) (key sym : string)
    (l : list Trade) :
  records self' = <[key := l]> (records self) ->
  trades_of self' sym = if decide (sym = key) then l else trades_of self sym.
Proof.
  intros E. unfold trades_of. rewrite E.
  destruct (decide (sym = key)) as [->|Hne].
  - rewrite lookup_insert_eq. reflexivity.
  - rewrite lookup_insert_ne by congruence. reflexivity.
Qed.

Lemma record_trade_prefix (trade : Trade) (self : SimpleTradeList)
    (sym : string) :
  trades_of self sym `prefix_of` trades_of (fst (record_trade trade self)) sym.
Proof.
  destruct (record_trade_records trade self) as [E|E].
  - rewrite E. reflexivity.
  - rewrite (trades_of_insert _ _ _ sym _ E).
    destruct (decide (sym = symbol (trade.stock trade))) as [->|_].
    + exists [trade]. reflexivity.
    + reflexivity.
Qed.

Lemma record_all_snoc (ts : list Trade) (t : Trade)
    (self : SimpleTradeList) :
  record_all (ts ++ [t]) self = fst (record_trade t (record_all ts self)).
Proof. unfold record_all. rewrite foldl_snoc. reflexivity. Qed.

Lemma record_all_reachable (ts : list Trade) (self : SimpleTradeList) :
  reachable self -> reachable (record_all ts self).
Proof.
  intros Hr. induction ts as [|t ts IH] using rev_ind.
  - exact Hr.
  - rewrite record_all_snoc. constructor. exact IH.
Qed.

Lemma reachable_record_all (self : SimpleTradeList) :
  reachable self <-> exists ts, self = record_all ts init.
Proof.
  split.
  - induction 1 as [|self trade _ [ts ->]].
    + exists []. reflexivity.
    + exists (ts ++ [trade]). rewrite record_all_snoc. reflexivity.
  - intros [ts ->]. apply record_all_reachable. constructor.
Qed.

(** X7: the ledger is append-only.  Whatever calls of [record_trade]
    are made and however they end, the sequence a symbol had before is
    a prefix of the sequence it has afterwards; one call adds at most
    the trade it was given, at the end of the sequence of that trade's
    symbol, and leaves the sequences of the other symbols as they
    were. *)
Theorem ledger_append_only (self : SimpleTradeList) :
  (forall ts sym,
     trades_of self sym `prefix_of` trades_of (record_all ts self) sym) /\
  (forall trade sym,
     trades_of (fst (record_trade trade self)) sym = trades_of self sym \/
     sym = symbol (trade.stock trade) /\
     trades_of (fst (record_trade trade self)) sym
     = trades_of self sym ++ [trade]).
Proof.
  split.
  - intros ts sym. induction ts as [|t ts IH] using rev_ind.
    + reflexivity.
    + rewrite record_all_snoc. etransitivity; [exact IH|].
      apply record_trade_prefix.
  - intros trade sym.
    destruct (record_trade_records trade self) as [E|E].
    + left. rewrite E. reflexivity.
    + rewrite (trades_of_insert _ _ _ sym _ E).
      destruct (decide (sym = symbol (trade.stock trade))) as [->|_]; auto.
Qed.

(** *** Invariants of the reachable ledgers *)

Lemma filed_append (trade : Trade) (self self' : SimpleTradeList) :
  (forall sym l, records self !! sym = Some l ->
     l <> [] /\ forall t, t ∈ l -> symbol (trade.stock t) = sym) ->
  records self'
  = <[symbol (trade.stock trade) :=
        trades_of self (symbol (trade.stock trade)) ++ [trade]]>
      (records self) ->
  forall sym l, records self' !! sym = Some l ->
    l <> [] /\ forall t, t ∈ l -> symbol (trade.stock t) = sym.
Proof.
  intros Hinv E sym l Hl. rewrite E in Hl.
  destruct (decide (sym = symbol (trade.stock trade))) as [->|Hne].
  - rewrite lookup_insert_eq in Hl. injection Hl as <-. split.
    + intros H. apply app_eq_nil in H as [_ H]. discriminate.
    + intros t Ht. apply elem_of_app in Ht as [Ht|Ht].
      * unfold trades_of in Ht.
        destruct (records self !! symbol (trade.stock trade)) as [l|] eqn:Hk;
          simpl in Ht.
        -- apply (Hinv _ _ Hk), Ht.
        -- apply elem_of_nil in Ht. contradiction.
      * apply list_elem_of_singleton in Ht. subst t. reflexivity.
  - rewrite lookup_insert_ne in Hl by congruence. apply (Hinv _ _ Hl).
Qed.

(** X8: in every reachable ledger each key of [records] holds a
    sequence that is not empty and whose trades all have that key as
    the symbol of their stock: a key is present exactly for the symbols
    that hold a trade. *)
Theorem reachable_filed (self : SimpleTradeList) :
  reachable self ->
  forall sym l,
    records self !! sym = Some l ->
    l <> [] /\ forall t, t ∈ l -> symbol (trade.stock t) = sym.
Proof.
  induction 1 as [|self trade _ IH].
  - intros sym l Hl. simpl in Hl. rewrite lookup_empty in Hl. discriminate.
  - destruct (record_trade_records trade self) as [E|E].
    + rewrite E. exact IH.
    + eapply filed_append; eassumption.
Qed.

Lemma reachable_ledger_interleaved : reachable ledger_interleaved.
Proof.
  eapply recorded_reachable, recorded_interleaved.
Qed.

(** The ledger of the two interleaved trades: what is under ["TEST2"]
    is a trade of that symbol. *)
Lemma reachable_filed_witness :
  [trade2_at_5] <> [] /\
  forall t, t ∈ [trade2_at_5] -> symbol (trade.stock t) = "TEST2"%string.
Proof.
  apply (reachable_filed ledger_interleaved reachable_ledger_interleaved
           "TEST2" [trade2_at_5]).
  reflexivity.
Defined.

Lemma sum_prices_append (trade : Trade) (self self' : SimpleTradeList) :
  records self'
  = <[symbol (trade.stock trade) :=
        trades_of self (symbol (trade.stock trade)) ++ [trade]]>
      (records self) ->
  sum_R (map traded_price (all_trades self'))
  = (sum_R (map traded_price (all_trades self)) + traded_price trade)%R.
Proof.
  intros E.
  rewrite (sum_R_Permutation _ (map traded_price (all_trades self ++ [trade])))
    by apply Permutation_map, all_trades_append, E.
  rewrite map_app. simpl (map _ [trade]). apply sum_R_snoc.
Qed.

(** X9: in every reachable ledger, also after calls that raised, the
    count is the number of trades held in the sequences and the price
    sum is the sum of their traded prices. *)
Theorem reachable_count_and_sum (self : SimpleTradeList) :
  reachable self ->
  traded_price_count self = Z.of_nat (length (all_trades self)) /\
  total_traded_price self = sum_R (map traded_price (all_trades self)).
Proof.
  intros Hr. split; [apply reachable_count, Hr|].
  induction Hr as [|self trade _ IH].
  - reflexivity.
  - destruct (record_trade_cases trade self)
      as [(t & _ & _ & E)|[(_ & _ & E)|(_ & _ & E)]]; rewrite E; simpl fst.
    + exact IH.
    + rewrite (sum_prices_append trade self (after_record trade self) eq_refl).
      simpl. rewrite IH. reflexivity.
    + rewrite (sum_prices_append trade self (before_log trade self) eq_refl).
      simpl. rewrite IH. reflexivity.
Qed.

Lemma reachable_ledger_partial : reachable ledger_partial.
Proof.
  replace ledger_partial
    with (record_all [trade_at_10; free_trade_at_20] init).
  - apply record_all_reachable. constructor.
  - unfold record_all. simpl foldl.
    rewrite record_trade_at_10. simpl fst.
    rewrite record_trade_in_order by exact free_trade_at_20_in_order.
    rewrite math_log_nonpositive by exact free_trade_at_20_price.
    reflexivity.
Qed.

(** The ledger left by the failed call at price 0: it counts both
    trades. *)
Lemma reachable_count_and_sum_witness :
  traded_price_count ledger_partial
  = Z.of_nat (length (all_trades ledger_partial)) /\
  traded_price_count ledger_partial = 2.
Proof.
  split; [|reflexivity].
  apply (reachable_count_and_sum ledger_partial reachable_ledger_partial).
Defined.

(** *** The global timestamp *)

Lemma record_trade_last_timestamp (trade : Trade) (self : SimpleTradeList)
    (m : Z) :
  last_timestamp self = Some m ->
  exists m', last_timestamp (fst (record_trade trade self)) = Some m' /\
             m <= m'.
Proof.
  intros Hm.
  destruct (record_trade_cases trade self)
    as [(t & _ & _ & E)|[(_ & _ & E)|(_ & _ & E)]]; rewrite E; simpl.
  - exists m. split; [exact Hm|lia].
  - rewrite Hm. eexists. split; [reflexivity|lia].
  - exists m. split; [exact Hm|lia].
Qed.

Lemma elem_of_all_trades_append (trade : Trade)
    (self self' : SimpleTradeList) (t : Trade) :
  records self'
  = <[symbol (trade.stock trade) :=
        trades_of self (symbol (trade.stock trade)) ++ [trade]]>
      (records self) ->
  t ∈ all_trades self' <-> t ∈ all_trades self \/ t = trade.
Proof.
  intros E. rewrite (all_trades_append trade self self' E).
  rewrite elem_of_app, list_elem_of_singleton. reflexivity.
Qed.

Lemma reachable_last_timestamp_stored (self : SimpleTradeList) (m : Z) :
  reachable self -> last_timestamp self = Some m ->
  exists t, t ∈ all_trades self /\ timestamp t = m.
Proof.
  intros Hr. revert m. induction Hr as [|self trade _ IH]; intros m.
  - discriminate.
  - pose proof (fun t => elem_of_all_trades_append trade self
                  (after_record trade self) t eq_refl) as Ha.
    pose proof (fun t => elem_of_all_trades_append trade self
                  (before_log trade self) t eq_refl) as Hb.
    destruct (record_trade_cases trade self)
      as [(t & _ & _ & E)|[(_ & _ & E)|(_ & _ & E)]]; rewrite E; simpl fst.
    + apply IH.
    + intros Hm. simpl in Hm.
      destruct (last_timestamp self) as [m0|] eqn:E0.
      * injection Hm as <-.
        destruct (Z.max_spec m0 (timestamp trade)) as [[_ ->]|[_ ->]].
        -- exists trade. split; [|reflexivity]. apply Ha. auto.
        -- destruct (IH m0 eq_refl) as (t & Ht & <-).
           exists t. split; [|reflexivity]. apply Ha. auto.
      * injection Hm as <-. exists trade. split; [|reflexivity].
        apply Ha. auto.
    + intros Hm. simpl in Hm. destruct (IH m Hm) as (t & Ht & <-).
      exists t. split; [|reflexivity]. apply Hb. auto.
Qed.

(** X10: once set, the global timestamp is never cleared and never
    decreases, whatever calls of [record_trade] follow and however
    they end; in a reachable ledger it is the timestamp of one of the
    trades held. *)
Theorem last_timestamp_monotone (self : SimpleTradeList) (m : Z) :
  last_timestamp self = Some m ->
  (forall ts,
     exists m', last_timestamp (record_all ts self) = Some m' /\ m <= m') /\
  (reachable self -> exists t, t ∈ all_trades self /\ timestamp t = m).
Proof.
  intros Hm. split.
  - intros ts. induction ts as [|t ts IH] using rev_ind.
    + exists m. split; [exact Hm|lia].
    + destruct IH as (m1 & H1 & Hle). rewrite record_all_snoc.
      destruct (record_trade_last_timestamp t _ m1 H1) as (m2 & H2 & Hle2).
      exists m2. split; [exact H2|lia].
  - intros Hr. apply reachable_last_timestamp_stored; assumption.
Qed.

(** From timestamp 10, an older trade of another symbol and a refused
    trade leave the global timestamp at 10. *)
Lemma last_timestamp_monotone_witness :
  exists m',
    last_timestamp (record_all [trade2_at_5; trade_at_5] ledger_at_10)
    = Some m' /\ 10 <= m'.
Proof.
  apply (proj1 (last_timestamp_monotone ledger_at_10 10 eq_refl)).
Defined.

Lemma latest_spec (ts : list Trade) :
  match latest ts with
  | None => ts = []
  | Some m =>
      Forall (fun t => timestamp t <= m) ts /\
      exists t, t ∈ ts /\ timestamp t = m
  end.
Proof.
  induction ts as [|x ts IH] using rev_ind.
  - reflexivity.
  - rewrite latest_snoc. destruct (latest ts) as [m|].
    + destruct IH as [Hall (t & Ht & Htm)]. split.
      * apply Forall_app. split.
        -- eapply Forall_impl; [exact Hall|]. simpl. intros. lia.
        -- repeat constructor. lia.
      * destruct (Z.max_spec m (timestamp x)) as [[_ ->]|[_ ->]].
        -- exists x. split; [|reflexivity].
           apply elem_of_app. right. apply list_elem_of_singleton.
           reflexivity.
        -- exists t. split; [|exact Htm]. apply elem_of_app. auto.
    + subst ts. split.
      * repeat constructor. simpl. lia.
      * exists x. split; [|reflexivity]. apply list_elem_of_singleton.
        reflexivity.
Qed.

Lemma recorded_timestamp_bound (ts : list Trade) (self : SimpleTradeList)
    (sym : string) (t : Trade) :
  recorded ts self -> t ∈ trades_of self sym ->
  exists m, last_timestamp self = Some m /\ timestamp t <= m.
Proof.
  intros Hrec Hin.
  destruct (recorded_aggregates ts self Hrec)
    as (_ & _ & _ & _ & Hlast & Hsym & _).
  rewrite Hsym in Hin. apply list_elem_of_filter in Hin as [_ Hin].
  pose proof (latest_spec ts) as Hspec. rewrite Hlast.
  destruct (latest ts) as [m|].
  - exists m. split; [reflexivity|].
    destruct Hspec as [Hall _]. rewrite Forall_forall in Hall.
    apply Hall, Hin.
  - subst ts. apply elem_of_nil in Hin. contradiction.
Qed.

(** X11: in a reachable ledger whose recorded prices are all positive,
    whenever [get_last_timestamp] returns a timestamp for a symbol it
    returns, without a symbol, a timestamp that is not earlier: the
    global timestamp bounds the timestamps of all symbols. *)
Theorem global_timestamp_dominates (self : SimpleTradeList)
    (sym : string) (a : Z) :
  reachable self ->
  Forall (fun t => (0 < traded_price t)%R) (all_trades self) ->
  get_last_timestamp (Some sym) self = (self, Ok (Some a)) ->
  exists m, get_last_timestamp None self = (self, Ok (Some m)) /\ a <= m.
Proof.
  intros Hr Hpos Hget.
  destruct (reachable_positive_recorded self Hr Hpos) as [ts Hrec].
  rewrite get_last_timestamp_symbol in Hget.
  injection Hget as Hget.
  destruct (last (trades_of self sym)) as [t|] eqn:Hl; [|discriminate].
  injection Hget as <-.
  destruct (recorded_timestamp_bound ts self sym t Hrec) as (m & Hm & Hle).
  { apply last_Some_elem_of, Hl. }
  exists m. split; [|exact Hle].
  unfold get_last_timestamp, gets. rewrite Hm. reflexivity.
Qed.

Lemma ledger_interleaved_positive :
  Forall (fun t => (0 < traded_price t)%R) (all_trades ledger_interleaved).
Proof.
  destruct (recorded_aggregates _ _ recorded_interleaved)
    as (_ & _ & _ & Hpos & _ & _ & Hall).
  rewrite Hall. exact Hpos.
Qed.

(** The second symbol of the interleaved ledger was last traded at 5;
    the global timestamp is not earlier. *)
Lemma global_timestamp_dominates_witness :
  exists m,
    get_last_timestamp None ledger_interleaved
    = (ledger_interleaved, Ok (Some m)) /\ 5 <= m.
Proof.
  apply (global_timestamp_dominates ledger_interleaved "TEST2" 5
           reachable_ledger_interleaved ledger_interleaved_positive).
  reflexivity.
Defined.

(** X12: after a call of [record_trade] that did not raise the ordering
    error, [get_last_timestamp] for the symbol of the trade returns the
    timestamp of the trade, also when the call raised in the logarithm;
    a call, however it ends, does not change what [get_last_timestamp]
    returns for another symbol. *)
Theorem record_then_get_last_timestamp (trade : Trade)
    (self : SimpleTradeList) :
  (in_order trade self ->
   fst (get_last_timestamp (Some (symbol (trade.stock trade)))
          (fst (record_trade trade self)))
   = fst (record_trade trade self) /\
   snd (get_last_timestamp (Some (symbol (trade.stock trade)))
          (fst (record_trade trade self)))
   = Ok (Some (timestamp trade))) /\
  (forall other,
     other <> symbol (trade.stock trade) ->
     snd (get_last_timestamp (Some other) (fst (record_trade trade self)))
     = snd (get_last_timestamp (Some other) self)).
Proof.
  split.
  - intros Hord. rewrite get_last_timestamp_symbol. simpl.
    split; [reflexivity|].
    assert (E : records (fst (record_trade trade self))
                = <[symbol (trade.stock trade) :=
                      trades_of self (symbol (trade.stock trade)) ++ [trade]]>
                    (records self)).
    { rewrite (record_trade_in_order _ _ Hord).
      destruct (math_log (traded_price trade)); reflexivity. }
    rewrite (trades_of_insert _ _ _ _ _ E).
    destruct (decide _) as [_|Hne]; [|contradiction].
    rewrite last_snoc. reflexivity.
  - intros other Hne. rewrite !get_last_timestamp_symbol. simpl.
    destruct (record_trade_records trade self) as [E|E].
    + rewrite E. reflexivity.
    + rewrite (trades_of_insert _ _ _ other _ E).
      destruct (decide _) as [Heq|_]; [contradiction|reflexivity].
Qed.

(** The trade at price 0 and timestamp 20: the call raises, and the
    symbol's last timestamp is 20 afterwards. *)
Lemma record_then_get_last_timestamp_witness :
  snd (get_last_timestamp (Some "TEST1"%string)
         (fst (record_trade free_trade_at_20 ledger_at_10)))
  = Ok (Some 20).
Proof.
  apply (proj1 (record_then_get_last_timestamp free_trade_at_20 ledger_at_10)).
  exact free_trade_at_20_in_order.
Defined.

(** *** Feeding a sequence of trades *)

Lemma chronological_app_l (l k : list Trade) :
  chronological (l ++ k) -> chronological l.
Proof.
  intros H i j a b Hij Ha Hb.
  apply (H i j a b Hij); apply lookup_app_l_Some; assumption.
Qed.

Lemma chronological_snoc_elem (l : list Trade) (x t : Trade) :
  chronological (l ++ [x]) -> t ∈ l -> timestamp t <= timestamp x.
Proof.
  intros H Ht. apply list_elem_of_lookup in Ht as [i Hi].
  apply (H i (length l) t x).
  - apply lookup_lt_Some in Hi. lia.
  - apply lookup_app_l_Some, Hi.
  - apply list_lookup_middle. reflexivity.
Qed.

Lemma filter_symbol_snoc (sym : string) (ts : list Trade) (t : Trade) :
  filter (fun t => symbol (trade.stock t) = sym) (ts ++ [t])
  = filter (fun t => symbol (trade.stock t) = sym) ts
    ++ (if decide (symbol (trade.stock t) = sym) then [t] else []).
Proof. rewrite filter_app. reflexivity. Qed.

(** A chronological sequence stays chronological when trades are
    left out. *)
Lemma chronological_filter (P : Trade -> Prop) `{forall t, Decision (P t)}
    (l : list Trade) :
  chronological l -> chronological (filter P l).
Proof.
  induction l as [|x l IH] using rev_ind; intros Hl.
  - apply chronological_nil.
  - rewrite filter_app.
    assert (Hf : chronological (filter P l)).
    { apply IH. eapply chronological_app_l, Hl. }
    rewrite filter_cons. destruct (decide (P x)).
    + apply chronological_snoc; [exact Hf|].
      intros t Ht. apply last_Some_elem_of in Ht.
      apply list_elem_of_filter in Ht as [_ Ht].
      eapply chronological_snoc_elem; eassumption.
    + rewrite filter_nil, app_nil_r. exact Hf.
Qed.

Lemma recorded_record_all (ts : list Trade) (self : SimpleTradeList) :
  recorded ts self -> self = record_all ts init.
Proof.
  induction 1 as [|ts self self' trade _ IH E].
  - reflexivity.
  - rewrite record_all_snoc, <- IH, E. reflexivity.
Qed.

Lemma feed_recorded (ts : list Trade) :
  Forall (fun t => (0 < traded_price t)%R) ts ->
  (forall sym,
     chronological (filter (fun t => symbol (trade.stock t) = sym) ts)) ->
  recorded ts (record_all ts init).
Proof.
  induction ts as [|t ts IH] using rev_ind; intros Hpos Hsorted.
  - constructor.
  - apply Forall_app in Hpos as [Hpos Ht]. apply Forall_inv in Ht.
    assert (Hrec : recorded ts (record_all ts init)).
    { apply IH; [exact Hpos|]. intros sym.
      specialize (Hsorted sym). rewrite filter_symbol_snoc in Hsorted.
      eapply chronological_app_l, Hsorted. }
    rewrite record_all_snoc.
    apply (recorded_snoc ts (record_all ts init)); [exact Hrec|].
    rewrite record_trade_ok; [reflexivity| |exact Ht].
    intros t0 Hl.
    destruct (recorded_aggregates _ _ Hrec) as (_ & _ & _ & _ & _ & Hsym & _).
    rewrite Hsym in Hl.
    specialize (Hsorted (symbol (trade.stock t))).
    rewrite filter_symbol_snoc in Hsorted.
    destruct (decide _) as [_|Hne]; [|contradiction].
    eapply chronological_snoc_elem; [exact Hsorted|].
    apply last_Some_elem_of, Hl.
Qed.

(** X13: the calls [record_trade(t)] for the trades of a sequence all
    return normally exactly when every price is positive and, symbol by
    symbol, the timestamps of the sequence do not decrease; the ledger
    is then the one the calls build in turn. *)
Theorem feed_accepted_iff (ts : list Trade) :
  ((exists self, recorded ts self) <->
   Forall (fun t => (0 < traded_price t)%R) ts /\
   forall sym,
     chronological (filter (fun t => symbol (trade.stock t) = sym) ts)) /\
  (forall self, recorded ts self -> self = record_all ts init).
Proof.
  split; [split|].
  - intros [self Hrec].
    destruct (recorded_aggregates _ _ Hrec) as (_ & _ & _ & Hpos & _ & Hsym & _).
    split; [exact Hpos|]. intros sym. rewrite <- Hsym.
    eapply ledger_chronological_trades_of, reachable_chronological,
      recorded_reachable, Hrec.
  - intros [Hpos Hsorted]. eexists. apply feed_recorded; assumption.
  - apply recorded_record_all.
Qed.

Lemma feed_positive : Forall (fun t => (0 < traded_price t)%R) feed.
Proof. repeat constructor; simpl; lra. Qed.

Lemma feed_chronological : chronological feed.
Proof.
  apply (chronological_snoc [_; _]).
  - apply (chronological_snoc [_]).
    + apply (chronological_snoc []); [apply chronological_nil|].
      intros t Ht. discriminate.
    + intros t [= <-]. simpl. lia.
  - intros t [= <-]. simpl. lia.
Qed.

(** Two trades of one symbol at the same timestamp and a later trade of
    another symbol are all recorded. *)
Lemma feed_accepted_iff_witness : exists self, recorded feed self.
Proof.
  apply (proj1 (feed_accepted_iff feed)). split.
  - exact feed_positive.
  - intros sym. apply chronological_filter. exact feed_chronological.
Defined.

Lemma chronological_latest (ts : list Trade) :
  chronological ts -> latest ts = timestamp <$> last ts.
Proof.
  intros Hs. destruct ts as [|x ts _] using rev_ind; [reflexivity|].
  rewrite last_snoc. simpl.
  pose proof (latest_spec (ts ++ [x])) as Hspec.
  destruct (latest (ts ++ [x])) as [m|].
  - destruct Hspec as [Hall (t & Ht & <-)]. f_equal.
    apply Z.le_antisymm.
    + apply elem_of_app in Ht as [Ht|Ht].
      * eapply chronological_snoc_elem; eassumption.
      * apply list_elem_of_singleton in Ht. subst t. lia.
    + rewrite Forall_forall in Hall. apply Hall.
      apply elem_of_app. right.
      apply list_elem_of_singleton. reflexivity.
  - destruct ts; discriminate.
Qed.

(** X14: a sequence of trades at positive prices whose timestamps do
    not decrease, across all symbols, is recorded entirely, and the
    global timestamp is then the timestamp of the last trade. *)
Theorem sorted_feed_accepted (ts : list Trade) :
  chronological ts ->
  Forall (fun t => (0 < traded_price t)%R) ts ->
  recorded ts (record_all ts init) /\
  get_last_timestamp None (record_all ts init)
  = (record_all ts init, Ok (timestamp <$> last ts)).
Proof.
  intros Hs Hpos.
  assert (Hrec : recorded ts (record_all ts init)).
  { apply feed_recorded; [exact Hpos|].
    intros sym. apply chronological_filter. exact Hs. }
  split; [exact Hrec|].
  destruct (recorded_aggregates _ _ Hrec) as (_ & _ & _ & _ & Hlast & _).
  unfold get_last_timestamp, gets.
  rewrite Hlast, chronological_latest by exact Hs. reflexivity.
Qed.

Lemma sorted_feed_accepted_witness :
  get_last_timestamp None (record_all feed init)
  = (record_all feed init, Ok (Some 12)).
Proof.
  apply (sorted_feed_accepted feed feed_chronological feed_positive).
Defined.

(** *** Trades of different symbols *)

Lemma record_trade_other_symbol (trade : Trade) (self : SimpleTradeList)
    (sym : string) :
  sym <> symbol (trade.stock trade) ->
  trades_of (fst (record_trade trade self)) sym = trades_of self sym.
Proof.
  intros Hne. destruct (record_trade_records trade self) as [E|E].
  - rewrite E. reflexivity.
  - rewrite (trades_of_insert _ _ _ sym _ E).
    destruct (decide _); [contradiction|reflexivity].
Qed.

Lemma in_order_other_symbol (t1 t2 : Trade) (self : SimpleTradeList) :
  symbol (trade.stock t1) <> symbol (trade.stock t2) ->
  in_order t1 (fst (record_trade t2 self)) <-> in_order t1 self.
Proof.
  intros Hne. unfold in_order.
  rewrite record_trade_other_symbol by exact Hne. reflexivity.
Qed.

(** The state a call leaves, by the path it takes. *)
Lemma record_trade_state (trade : Trade) (self : SimpleTradeList) :
  (~ in_order trade self /\ fst (record_trade trade self) = self) \/
  (in_order trade self /\ (0 < traded_price trade)%R /\
   fst (record_trade trade self) = after_record trade self) \/
  (in_order trade self /\ (traded_price trade <= 0)%R /\
   fst (record_trade trade self) = before_log trade self).
Proof.
  destruct (record_trade_cases trade self)
    as [(t & Hl & Hlt & E)|[(Ho & Hp & E)|(Ho & Hp & E)]]; rewrite E; simpl.
  - left. split; [|reflexivity]. apply not_in_order. exists t. auto.
  - right. left. auto.
  - right. right. auto.
Qed.

Lemma record_trade_not_in_order (trade : Trade) (self : SimpleTradeList) :
  ~ in_order trade self -> fst (record_trade trade self) = self.
Proof.
  intros H. destruct (record_trade_state trade self)
    as [[_ E]|[(Ho & _)|(Ho & _)]]; [exact E|contradiction..].
Qed.

Lemma record_trade_positive (trade : Trade) (self : SimpleTradeList) :
  in_order trade self -> (0 < traded_price trade)%R ->
  fst (record_trade trade self) = after_record trade self.
Proof. intros Ho Hp. rewrite record_trade_ok by assumption. reflexivity. Qed.

Lemma record_trade_nonpositive (trade : Trade) (self : SimpleTradeList) :
  in_order trade self -> (traded_price trade <= 0)%R ->
  fst (record_trade trade self) = before_log trade self.
Proof.
  intros Ho Hp. rewrite record_trade_in_order by exact Ho.
  rewrite math_log_nonpositive by exact Hp. reflexivity.
Qed.

Lemma ledger_eq (a b : SimpleTradeList) :
  records a = records b ->
  traded_price_count a = traded_price_count b ->
  total_traded_price a = total_traded_price b ->
  total_traded_price_log a = total_traded_price_log b ->
  last_timestamp a = last_timestamp b ->
  a = b.
Proof.
  destruct a, b. simpl. intros -> -> -> -> ->. reflexivity.
Qed.

Lemma trades_of_after_record (t : Trade) (self : SimpleTradeList)
    (sym : string) :
  sym <> symbol (trade.stock t) ->
  trades_of (after_record t self) sym = trades_of self sym.
Proof.
  intros Hne.
  rewrite (trades_of_insert self (after_record t self) _ sym _ eq_refl).
  destruct (decide _); [contradiction|reflexivity].
Qed.

Lemma trades_of_before_log (t : Trade) (self : SimpleTradeList)
    (sym : string) :
  sym <> symbol (trade.stock t) ->
  trades_of (before_log t self) sym = trades_of self sym.
Proof.
  intros Hne.
  rewrite (trades_of_insert self (before_log t self) _ sym _ eq_refl).
  destruct (decide _); [contradiction|reflexivity].
Qed.

(** Closes the equality of two ledgers built with [after_record] and
    [before_log] from trades of different symbols. *)
Ltac same_ledger Hne :=
  apply ledger_eq; simpl;
  [ rewrite ?trades_of_after_record, ?trades_of_before_log by congruence;
    apply insert_insert_ne; congruence
  | lia
  | lra
  | lra
  | repeat (match goal with
            | |- context [match ?x with _ => _ end] => destruct x
            end);
    simpl; f_equal; lia ].

Lemma record_trade_commute (t1 t2 : Trade) (self : SimpleTradeList) :
  symbol (trade.stock t1) <> symbol (trade.stock t2) ->
  fst (record_trade t2 (fst (record_trade t1 self)))
  = fst (record_trade t1 (fst (record_trade t2 self))).
Proof.
  intros Hne.
  assert (Hne' : symbol (trade.stock t2) <> symbol (trade.stock t1))
    by congruence.
  pose proof (in_order_other_symbol t1 t2 self Hne) as H12.
  pose proof (in_order_other_symbol t2 t1 self Hne') as H21.
  destruct (record_trade_state t1 self)
    as [[Ho1 E1]|[(Ho1 & Hp1 & E1)|(Ho1 & Hp1 & E1)]];
  destruct (record_trade_state t2 self)
    as [[Ho2 E2]|[(Ho2 & Hp2 & E2)|(Ho2 & Hp2 & E2)]].
  - rewrite (record_trade_not_in_order t2) by tauto.
    rewrite (record_trade_not_in_order t1 (fst _)) by tauto.
    rewrite E1, E2. reflexivity.
  - rewrite (record_trade_positive t2) by tauto.
    rewrite (record_trade_not_in_order t1 (fst _)) by tauto.
    rewrite E1, E2. reflexivity.
  - rewrite (record_trade_nonpositive t2) by tauto.
    rewrite (record_trade_not_in_order t1 (fst _)) by tauto.
    rewrite E1, E2. reflexivity.
  - rewrite (record_trade_not_in_order t2) by tauto.
    rewrite (record_trade_positive t1 (fst _)) by tauto.
    rewrite E1, E2. reflexivity.
  - rewrite (record_trade_positive t2) by tauto.
    rewrite (record_trade_positive t1 (fst _)) by tauto.
    rewrite E1, E2. same_ledger Hne.
  - rewrite (record_trade_nonpositive t2) by tauto.
    rewrite (record_trade_positive t1 (fst _)) by tauto.
    rewrite E1, E2. same_ledger Hne.
  - rewrite (record_trade_not_in_order t2) by tauto.
    rewrite (record_trade_nonpositive t1 (fst _)) by tauto.
    rewrite E1, E2. reflexivity.
  - rewrite (record_trade_positive t2) by tauto.
    rewrite (record_trade_nonpositive t1 (fst _)) by tauto.
    rewrite E1, E2. same_ledger Hne.
  - rewrite (record_trade_nonpositive t2) by tauto.
    rewrite (record_trade_nonpositive t1 (fst _)) by tauto.
    rewrite E1, E2. same_ledger Hne.
Qed.

Lemma record_trade_outcome_other (t1 t2 : Trade) (self : SimpleTradeList) :
  symbol (trade.stock t1) <> symbol (trade.stock t2) ->
  snd (record_trade t1 (fst (record_trade t2 self)))
  = snd (record_trade t1 self).
Proof.
  intros Hne.
  pose proof (in_order_other_symbol t1 t2 self Hne) as H12.
  destruct (record_trade_cases t1 self)
    as [(t & Hl & Hlt & E)|[(Ho & Hp & E)|(Ho & Hp & E)]]; rewrite E; simpl.
  - rewrite (record_trade_late t1 _ t); [reflexivity| |exact Hlt].
    rewrite record_trade_other_symbol by exact Hne. exact Hl.
  - rewrite record_trade_ok; [reflexivity|tauto|exact Hp].
  - rewrite record_trade_in_order by tauto.
    rewrite math_log_nonpositive by exact Hp. reflexivity.
Qed.

(** X15: two calls of [record_trade] with trades of different symbols
    commute: in either order each call ends as it would have ended
    alone, and the ledger left is the same (sums being exact). *)
Theorem record_trade_symbols_commute (t1 t2 : Trade)
    (self : SimpleTradeList) :
  symbol (trade.stock t1) <> symbol (trade.stock t2) ->
  fst (record_trade t2 (fst (record_trade t1 self)))
  = fst (record_trade t1 (fst (record_trade t2 self))) /\
  snd (record_trade t1 (fst (record_trade t2 self)))
  = snd (record_trade t1 self) /\
  snd (record_trade t2 (fst (record_trade t1 self)))
  = snd (record_trade t2 self).
Proof.
  intros Hne. split; [apply record_trade_commute, Hne|]. split.
  - apply record_trade_outcome_other, Hne.
  - apply record_trade_outcome_other. congruence.
Qed.

(** The trade at timestamp 10 and a trade of another symbol at
    timestamp 5, on the empty ledger, in both orders. *)
Lemma record_trade_symbols_commute_witness :
  fst (record_trade trade_b_at_5 (fst (record_trade trade_at_10 init)))
  = fst (record_trade trade_at_10 (fst (record_trade trade_b_at_5 init))).
Proof.
  apply (record_trade_symbols_commute trade_at_10 trade_b_at_5 init).
  discriminate.
Defined.

(** *** The geometric mean *)


(** X16: in a reachable ledger [geometric_mean] returns 0 exactly when
    no trade is held, and a positive number otherwise: the value 0 is
    only the answer of the empty ledger. *)
Theorem geometric_mean_zero_iff (self : SimpleTradeList) :
  reachable self ->
  exists g,
    geometric_mean self = (self, Ok g) /\
    (g = 0%R <-> all_trades self = []) /\
    (all_trades self <> [] -> (0 < g)%R).
Proof.
  intros Hr. rewrite geometric_mean_run. eexists. split; [reflexivity|].
  destruct (decide (all_trades self = [])) as [Hnil|Hne].
  - rewrite (reachable_count self Hr), Hnil. simpl. tauto.
  - rewrite (all_trades_nonempty_count self Hr Hne).
    pose proof (exp_pos (total_traded_price_log self
                         / IZR (traded_price_count self))).
    split; [split|]; intros; try contradiction; try lra.
Qed.

Lemma geometric_mean_zero_iff_witness :
  exists g,
    geometric_mean ledger_partial = (ledger_partial, Ok g) /\
    (g = 0%R <-> all_trades ledger_partial = []) /\
    (all_trades ledger_partial <> [] -> (0 < g)%R).
Proof.
  apply (geometric_mean_zero_iff ledger_partial reachable_ledger_partial).
Defined.

(** *** The volume-weighted price in any state *)

Lemma sum_traded_cons (t : Trade) (l : list Trade) :
  sum_traded (t :: l)
  = (traded_price t * IZR (quantity t) + sum_traded l)%R.
Proof. reflexivity. Qed.

Lemma sum_quantity_cons (t : Trade) (l : list Trade) :
  sum_quantity (t :: l) = quantity t + sum_quantity l.
Proof. reflexivity. Qed.

(** Whatever the order of the sequence, the scan over the indices
    [n - 1, ..., 0] adds the trades it visits before it stops, and no
    index is out of range. *)
Lemma scan_back_visits (trades : list Trade) (now td : Z) :
  forall (n : nat) (total_traded : R) (total_quantity : Z),
    (n <= length trades)%nat ->
    scan_back trades now td (range_down n) total_traded total_quantity
    = Ok ((total_traded
           + sum_traded (while_recent (now - td) (rev (take n trades))))%R,
          total_quantity
          + sum_quantity (while_recent (now - td) (rev (take n trades)))).
Proof.
  induction n as [|n IH]; intros acc_t acc_q Hn.
  - rewrite take_0. simpl. f_equal. f_equal.
    + change (sum_traded []) with 0%R. lra.
    + change (sum_quantity []) with 0. lia.
  - rewrite range_down_S. simpl scan_back. unfold getitem.
    destruct (lookup_lt_is_Some_2 trades n) as [t Ht]; [lia|].
    rewrite Ht, (take_S_r _ _ _ Ht), rev_unit. simpl while_recent.
    destruct (Z.gtb_spec (now - td) (timestamp t)) as [Hout|Hin].
    + destruct (decide (now - td <= timestamp t)); [lia|].
      f_equal. f_equal.
      * change (sum_traded []) with 0%R. lra.
      * change (sum_quantity []) with 0. lia.
    + destruct (decide (now - td <= timestamp t)); [|lia].
      rewrite IH by lia. rewrite sum_traded_cons, sum_quantity_cons.
      f_equal. f_equal; [lra|lia].
Qed.

Lemma volume_weighted_run (self : SimpleTradeList) (clock : Z)
    (sym : string) (now td : option Z) :
  volume_weighted_stock_price clock sym now td self
  = (self,
     Ok (if sum_quantity
              (scanned (default clock now)
                 (default default_trade_timedelta td) (trades_of self sym))
            =? 0
         then 0%R
         else (sum_traded
                 (scanned (default clock now)
                    (default default_trade_timedelta td)
                    (trades_of self sym))
               / IZR (sum_quantity
                        (scanned (default clock now)
                           (default default_trade_timedelta td)
                           (trades_of self sym))))%R)).
Proof.
  destruct (decide (trades_of self sym = [])) as [Hnil|Hne].
  - rewrite volume_weighted_no_trades by exact Hnil.
    rewrite Hnil. reflexivity.
  - unfold volume_weighted_stock_price, bind, gets.
    rewrite truthy_trades_of, bool_decide_eq_false_2 by exact Hne.
    simpl negb. cbv iota zeta.
    fold (trades_of self sym).
    change (match now with Some now0 => now0 | None => clock end)
      with (default clock now).
    rewrite scan_back_visits by reflexivity.
    rewrite take_ge by reflexivity.
    fold (scanned (default clock now) (default default_trade_timedelta td)
            (trades_of self sym)).
    set (S := sum_traded _). set (Q := sum_quantity _).
    replace (0 + S)%R with S by lra. rewrite Z.add_0_l. simpl.
    destruct (Z.eqb_spec Q 0) as [Hz|Hnz].
    + reflexivity.
    + unfold truediv.
      destruct (Req_dec_T _ 0) as [E|_]; [|reflexivity].
      apply eq_IZR_R0 in E. contradiction.
Qed.

(** X19: in any state of the ledger, reachable or not and whatever the
    order of its sequences, [volume_weighted_stock_price] returns
    without raising and leaves the ledger as it was; its value is the
    volume-weighted price of the trades the backward scan visits, the
    latest trades of the symbol down to the first one older than
    [now - window], and 0 when their quantities add up to 0. *)
Theorem volume_weighted_any_state (self : SimpleTradeList) (clock : Z)
    (sym : string) (now td : option Z) :
  exists v,
    volume_weighted_stock_price clock sym now td self = (self, Ok v) /\
    (sum_quantity
       (scanned (default clock now) (default default_trade_timedelta td)
          (trades_of self sym)) = 0 -> v = 0%R) /\
    (sum_quantity
       (scanned (default clock now) (default default_trade_timedelta td)
          (trades_of self sym)) <> 0 ->
     v = (sum_traded
            (scanned (default clock now)
               (default default_trade_timedelta td) (trades_of self sym))
          / IZR (sum_quantity
                   (scanned (default clock now)
                      (default default_trade_timedelta td)
                      (trades_of self sym))))%R).
Proof.
  eexists. split; [apply volume_weighted_run|].
  destruct (Z.eqb_spec
              (sum_quantity
                 (scanned (default clock now)
                    (default default_trade_timedelta td)
                    (trades_of self sym))) 0) as [Hz|Hnz].
  - split; [reflexivity|contradiction].
  - split; [contradiction|reflexivity].
Qed.

(** A ledger, not reachable, whose sequence is out of order: the scan
    stops on the old trade that comes last and the method returns 0. *)
Lemma volume_weighted_any_state_witness :
  volume_weighted_stock_price 0 "TEST1" (Some test_now) None
    shuffled_ledger
  = (shuffled_ledger, Ok 0%R).
Proof.
  destruct (volume_weighted_any_state shuffled_ledger 0 "TEST1"
              (Some test_now) None) as (v & E & Hz & _).
  rewrite E, Hz; reflexivity.
Defined.

(** X20: when the last trade of the symbol is older than
    [now - window], [volume_weighted_stock_price] returns 0, in any
    state: the symbol has trades, none of them recent. *)
Theorem volume_weighted_too_old (self : SimpleTradeList) (clock : Z)
    (sym : string) (now td : option Z) (t : Trade) :
  last (trades_of self sym) = Some t ->
  timestamp t < default clock now - default default_trade_timedelta td ->
  volume_weighted_stock_price clock sym now td self = (self, Ok 0%R).
Proof.
  intros Hl Hlt. rewrite volume_weighted_run.
  apply last_Some in Hl as [l' ->].
  unfold scanned. rewrite rev_unit. simpl.
  destruct (decide _); [lia|]. reflexivity.
Qed.

(** The ledger of the test suite one hour later: its last trade is 65
    minutes old. *)
Lemma volume_weighted_too_old_witness :
  volume_weighted_stock_price 0 "TEST1" (Some (test_now + minutes 60)) None
    window_ledger
  = (window_ledger, Ok 0%R).
Proof.
  apply (volume_weighted_too_old window_ledger 0 "TEST1"
           (Some (test_now + minutes 60)) None window_trade3);
    reflexivity.
Defined.

(** X21: a call of [record_trade], however it ends, does not change
    what [volume_weighted_stock_price] returns for another symbol. *)
Theorem volume_weighted_other_symbol (trade : Trade)
    (self : SimpleTradeList) (clock : Z) (sym : string) (now td : option Z) :
  sym <> symbol (trade.stock trade) ->
  snd (volume_weighted_stock_price clock sym now td
         (fst (record_trade trade self)))
  = snd (volume_weighted_stock_price clock sym now td self).
Proof.
  intros Hne. rewrite !volume_weighted_run. simpl.
  rewrite record_trade_other_symbol by exact Hne. reflexivity.
Qed.

Lemma volume_weighted_other_symbol_witness :
  snd (volume_weighted_stock_price 0 "TEST1" (Some test_now) None
         (fst (record_trade trade2_at_5 window_ledger)))
  = snd (volume_weighted_stock_price 0 "TEST1" (Some test_now) None
           window_ledger).
Proof.
  apply (volume_weighted_other_symbol trade2_at_5 window_ledger).
  discriminate.
Defined.

(** *** The volume-weighted price as an average *)









End trade_extra.
